(** * ensure_version: the version guard of JOTSR/ensure_version

    A shallow embedding of [src/ensure_version.ts], which holds the two
    variants of [ensureVersion]:

    - the simple variant (module [Simple]), whose advisory helpers
      [maxMinor] and [maxPatch] enumerate candidate versions with [range];
    - the catalog-aware variant (module [Catalog]), which consults the list
      [denoVersions] of released versions and takes an [importer].

    JavaScript values, the object heap, the console and exceptions are made
    explicit: a computation is a function from a [State] to a [result] and a
    new [State]. *)

From Stdlib Require Import Ascii.
From stdpp Require Import gmap strings list fin_maps pretty sorting.

Open Scope Z_scope.

(** ** Strings: [split], [slice], [join] *)

Module JsString.

(** The double-quote character, for the messages that quote a word. *)
Definition dquote : string := String (ascii_of_nat 34) "".

(** [s.split(sep)] for a one-character separator. *)
Fixpoint split (sep : ascii) (s : string) : list string :=
  match s with
  | EmptyString => [""]
  | String c s' =>
      if Stdlib.Strings.Ascii.eqb c sep then "" :: split sep s'
      else match split sep s' with
           | [] => [String c ""]
           | w :: ws => String c w :: ws
           end
  end.

(** [l.join(sep)]. *)
Fixpoint join (sep : string) (l : list string) : string :=
  match l with
  | [] => ""
  | [x] => x
  | x :: xs => x +:+ sep +:+ join sep xs
  end.

(** [s.split('.').slice(0, 3).join('.')]. *)
Definition first_three (s : string) : string :=
  join "." (take 3 (split "." s)).

(** [t] occurs in [s]. *)
Definition includes (s t : string) : Prop :=
  ∃ pre post, s = pre +:+ t +:+ post.

End JsString.
Import JsString.

(** ** Values, heap, console, exceptions *)

Definition loc := positive.

(** A requirement object [{deno?: string, v8?: string, typescript?: string}]:
    a finite map from property names to strings. *)
Abbreviation object := (gmap string string).

(** The first parameter of [ensureVersion]:
    [AtLeastOne<Version> | string], or [undefined]. *)
Inductive Arg :=
| Undefined
| Str (s : string)
| Obj (l : loc).

#[global] Instance Arg_eq_dec : EqDecision Arg.
Proof. solve_decision. Defined.

Inductive ErrorClass := TypeError | RangeError.

#[global] Instance ErrorClass_eq_dec : EqDecision ErrorClass.
Proof. solve_decision. Defined.

(** A thrown [Error]: its class and its message. *)
Record JsError := Err { err_class : ErrorClass; err_message : string }.

Inductive Level := warn | info.

(** One call of [console.warn] or [console.info] with its arguments. *)
Record LogEntry := Log { log_level : Level; log_args : list string }.

Record State := mkState {
  heap : gmap loc object;
  console : list LogEntry
}.

Inductive result (A : Type) :=
| Ok (a : A)
| Throw (e : JsError).
Arguments Ok {A} a.
Arguments Throw {A} e.

Definition M (A : Type) : Type := State → result A * State.

Definition ret {A} (a : A) : M A := λ st, (Ok a, st).

Definition bind {A B} (m : M A) (k : A → M B) : M B :=
  λ st, match m st with
        | (Ok a, st') => k a st'
        | (Throw e, st') => (Throw e, st')
        end.

Definition throw {A} (e : JsError) : M A := λ st, (Throw e, st).

Declare Scope js_scope.
Delimit Scope js_scope with js.
Notation "'let!' x := m 'in' k" := (bind m (λ x, k))
  (at level 10, x name, m at level 100, k at level 200) : js_scope.
Notation "m ;;; k" := (bind m (λ _, k))
  (at level 100, k at level 200, right associativity) : js_scope.
Open Scope js_scope.

(** [{deno: s}]: a fresh object. *)
Definition alloc (o : object) : M loc :=
  λ st, let l := fresh (dom (heap st)) in
        (Ok l, mkState (<[l := o]> (heap st)) (console st)).

(** The object a reference points to. A reference of a running program
    always points to a live object; the empty object stands for the
    others. *)
Definition deref (l : loc) : M object :=
  λ st, (Ok (default ∅ (heap st !! l)), st).

(** [version[key]]: [None] is [undefined]. *)
Definition get_prop (l : loc) (key : string) : M (option string) :=
  let! o := deref l in ret (o !! key).

(** [Object.keys(version).length]. *)
Definition keys_length (l : loc) : M nat :=
  let! o := deref l in ret (size o).

Definition console_log (lv : Level) (args : list string) : M unit :=
  λ st, (Ok tt, mkState (heap st) (console st ++ [Log lv args])).

(** [for (const x in xs) body(x)], where [continue] ends [body]. *)
Fixpoint for_in {A} (xs : list A) (body : A → M unit) : M unit :=
  match xs with
  | [] => ret tt
  | x :: xs' => body x ;;; for_in xs' body
  end.

(** A template literal prints [undefined] for a missing property. *)
Definition interpolate (v : option string) : string := default "undefined" v.

(** What a caller observes of a run: the outcome and the console. *)
Definition observable {A} (r : result A * State) : result A * list LogEntry :=
  (r.1, console r.2).

(** ** The semantic-version library *)

Record SemVer := mkSemVer { sv_major : Z; sv_minor : Z; sv_patch : Z }.

(** The result of a library call: a value, or a [TypeError] with its
    message. *)
Inductive lib_result (A : Type) :=
| LibOk (a : A)
| LibTypeError (msg : string).
Arguments LibOk {A} a.
Arguments LibTypeError {A} msg.

Definition lib {A} (r : lib_result A) : M A :=
  match r with
  | LibOk a => ret a
  | LibTypeError msg => throw (Err TypeError msg)
  end.

(** The interface of the [semver] library imported from [deps.ts]: parse a
    version, test a version against a range expression, and pick the maximum
    of a list of versions that satisfies a range. A failure of theirs is a
    [TypeError]. [semver.major(v)], [semver.minor(v)] and [semver.patch(v)]
    read the fields of the parsed version. The development is parametric in
    the library. *)
Class Semver := {
  semver_parse : string → lib_result SemVer;
  semver_satisfies : string → string → lib_result bool;
  semver_maxSatisfying : list string → string → lib_result (option string)
}.

Definition lib_map {A B} (f : A → B) (r : lib_result A) : lib_result B :=
  match r with
  | LibOk a => LibOk (f a)
  | LibTypeError msg => LibTypeError msg
  end.

Definition semver_major `{Semver} (v : string) : lib_result Z :=
  lib_map sv_major (semver_parse v).
Definition semver_minor `{Semver} (v : string) : lib_result Z :=
  lib_map sv_minor (semver_parse v).
Definition semver_patch `{Semver} (v : string) : lib_result Z :=
  lib_map sv_patch (semver_parse v).

(** ** The host *)

Record ImportMeta := mkImportMeta { url : string; main : bool }.

(** What the module reads from its surroundings. [Deno_version] lists the
    properties of [Deno.version] in the order [for ... in] visits them;
    [denoVersions] is the constant the catalog-aware variant computes from
    the release notes when the module is loaded. *)
Record Host := mkHost {
  Deno_version : list (string * string);
  import_meta_url : string;
  JSON_stringify : object → string;
  denoVersions : list SemVer
}.

(** [Boolean(x)] for [x : string | null]. *)
Definition Boolean (x : option string) : bool :=
  match x with
  | Some s => negb (String.eqb s "")
  | None => false
  end.

(** [`${major}.${minor}.${patch}`]. *)
Definition version_string (major minor patch : Z) : string :=
  pretty major +:+ "." +:+ pretty minor +:+ "." +:+ pretty patch.

(** The message of the first [TypeError]. *)
Definition undefined_message : string :=
  dquote +:+ "version" +:+ dquote +:+ " : [undefined] is not a valid semver".

(** The message of the second [TypeError]. *)
Definition empty_message (host : Host) (o : object) : string :=
  "version " +:+ dquote +:+ JSON_stringify host o +:+ dquote
  +:+ " should have at least one of these keys ["
  +:+ join ", " (Deno_version host).*1 +:+ "]".

(** The message the host gives a [RangeError] of [new Array(n)], [n < 0]. *)
Definition invalid_array_length : JsError :=
  Err RangeError "Invalid array length".

(** [version = {deno: version}] for a string, the object itself otherwise. *)
Definition normalize (version : Arg) : M loc :=
  match version with
  | Str s => alloc {[ "deno" := s ]}
  | Obj l => ret l
  | Undefined => throw (Err TypeError undefined_message)
  end.

(** ** The simple variant *)

Module Simple.
Section Simple.
Context `{Semver} (host : Host).

(** The elements of [range(min, max)] when the array can be built:
    [i + min + 1] for each index [i] below [max - min]. *)
Definition range_values (min max : Z) : list Z :=
  map (λ i : nat, Z.of_nat i + min + 1) (seq 0 (Z.to_nat (max - min))).

(** [new Array(max - min).fill(1).map((_, i) => i + min + 1)]; the host
    refuses a negative length. It refuses a length above [2^32 - 1] too,
    which is left out: the helpers ask for [100 - minor] and
    [500 - patch] elements, and the library's components are not
    negative. *)
Definition range (min max : Z) : M (list Z) :=
  if max - min <? 0 then throw invalid_array_length
  else ret (range_values min max).

Definition maxMinor (originVersion requiredVersion : string) : M bool :=
  let! originMajor := lib (semver_major originVersion) in
  let! m := lib (semver_minor originVersion) in
  let! originMinors := range m 100 in
  let originVersions :=
    map (λ originMinor, version_string originMajor originMinor 0)
        originMinors in
  let! best := lib (semver_maxSatisfying originVersions requiredVersion) in
  ret (Boolean best).

Definition maxPatch (originVersion requiredVersion : string) : M bool :=
  let! originMajor := lib (semver_major originVersion) in
  let! originMinor := lib (semver_minor originVersion) in
  let! p := lib (semver_patch originVersion) in
  let! originPatchs := range p 500 in
  let originVersions :=
    map (λ originPatch, version_string originMajor originMinor originPatch)
        originPatchs in
  let! best := lib (semver_maxSatisfying originVersions requiredVersion) in
  ret (Boolean best).

Definition mismatch_message (key origin : string) (required : option string)
  : string :=
  key +:+ "@" +:+ origin +:+ " not match version " +:+ interpolate required
  +:+ " required by " +:+ import_meta_url host.

Definition minor_message (key origin : string) (required : option string)
  : string :=
  "%c" +:+ key +:+ "@" +:+ origin +:+ " not match maximum minor "
  +:+ interpolate required +:+ " required by " +:+ import_meta_url host
  +:+ ", " +:+ key +:+ " minor can be upgraded".

Definition patch_message (key origin : string) (required : option string)
  : string :=
  "%c" +:+ key +:+ "@" +:+ origin +:+ " not match maximum patch "
  +:+ interpolate required +:+ " required by " +:+ import_meta_url host
  +:+ ", " +:+ key +:+ " patch can be upgraded".

(** The body of the loop for one property [key: raw] of [Deno.version]. *)
Definition check_key (version : loc) (logs : bool) (entry : string * string)
  : M unit :=
  let key := entry.1 in
  let origin := first_three entry.2 in
  let! required := get_prop version key in
  match required with
  | None => ret tt
  | Some required =>
      let! sat := lib (semver_satisfies origin required) in
      if negb sat then
        let! shown := get_prop version key in
        throw (Err RangeError (mismatch_message key origin shown))
      else
        let! up_minor := maxMinor origin required in
        if up_minor && logs then
          let! shown := get_prop version key in
          console_log warn [minor_message key origin shown; "color: yellow"]
        else
          let! up_patch := maxPatch origin required in
          if up_patch && logs then
            let! shown := get_prop version key in
            console_log info [patch_message key origin shown; "color: grey"]
          else ret tt
  end.

Definition ensureVersion (version : Arg) (logs : bool) : M unit :=
  let! version := normalize version in
  let! n := keys_length version in
  if Nat.eqb n 0 then
    let! o := deref version in
    throw (Err TypeError (empty_message host o))
  else
    for_in (Deno_version host) (check_key version logs).

End Simple.
End Simple.

(** ** The catalog-aware variant *)

Module Catalog.
Section Catalog.
Context `{Semver} (host : Host).

Definition maxOriginVersion (requiredVersion : string) : M string :=
  let originVersions :=
    map (λ version,
           version_string (sv_major version) (sv_minor version)
                          (sv_patch version))
        (denoVersions host) in
  let! best := lib (semver_maxSatisfying originVersions requiredVersion) in
  ret (default requiredVersion best).

(** [importer ? ` by ${importer.url}` : ''] *)
Definition importerName (importer : option ImportMeta) : string :=
  match importer with
  | Some i => " by " +:+ url i
  | None => ""
  end.

Definition mismatch_message (importer : option ImportMeta)
    (key origin : string) (shown : option string) : string :=
  key +:+ "@" +:+ origin +:+ " not match version " +:+ interpolate shown
  +:+ " required" +:+ importerName importer.

Definition minor_message (importer : option ImportMeta)
    (key origin required maxOrigin : string) : string :=
  "%c" +:+ key +:+ "@" +:+ origin +:+ " not match maximum minor "
  +:+ required +:+ " required" +:+ importerName importer
  +:+ ", " +:+ key +:+ " minor can be upgraded to " +:+ maxOrigin.

Definition patch_message (importer : option ImportMeta)
    (key origin required maxOrigin : string) : string :=
  "%c" +:+ key +:+ "@" +:+ origin +:+ " not match maximum patch "
  +:+ required +:+ " required" +:+ importerName importer
  +:+ ", " +:+ key +:+ " patch can be upgraded to " +:+ maxOrigin.

(** The body of the loop for one property [key: raw] of [Deno.version]. *)
Definition check_key (version : loc) (logs : bool)
    (importer : option ImportMeta) (entry : string * string) : M unit :=
  let key := entry.1 in
  let origin := first_three entry.2 in
  let! found := get_prop version key in
  match first_three <$> found with
  | None => ret tt
  | Some required =>
      if String.eqb key "typescript" || String.eqb key "v8" then ret tt
      else
        let! sat := lib (semver_satisfies origin required) in
        if negb sat then
          let! shown := get_prop version key in
          throw (Err RangeError (mismatch_message importer key origin shown))
        else
          let! maxOrigin := maxOriginVersion required in
          let! max_minor := lib (semver_minor maxOrigin) in
          let! origin_minor := lib (semver_minor origin) in
          if negb (max_minor =? origin_minor) && logs then
            console_log warn
              [minor_message importer key origin required maxOrigin;
               "color: yellow"]
          else
            let! max_patch := lib (semver_patch maxOrigin) in
            let! origin_patch := lib (semver_patch origin) in
            if negb (max_patch =? origin_patch) && logs then
              console_log info
                [patch_message importer key origin required maxOrigin;
                 "color: grey"]
            else ret tt
  end.

Definition ensureVersion (version : Arg) (logs : bool)
    (importer : option ImportMeta) : M unit :=
  let! version := normalize version in
  let! n := keys_length version in
  if Nat.eqb n 0 then
    let! o := deref version in
    throw (Err TypeError (empty_message host o))
  else
    for_in (Deno_version host) (check_key version logs importer).

End Catalog.
End Catalog.

(** ** A reference library *)

(** Modelled from the spec: the semantic-version helpers of section 4.2,
    whose code ([deps.ts] and the library behind it) is not among the
    sources. Versions are dotted triples of decimal numbers; a range is a
    list of alternatives separated by [||], each one a hyphen range [A - B]
    or a list of comparators ([<], [<=], [>], [>=], [=] or none, followed by
    a version with one, two or three components, a shorter one standing for
    the versions compatible with it). Malformed versions and ranges are a
    [TypeError]. *)
Module RefSemver.

Inductive Op := OpLt | OpLe | OpGt | OpGe | OpEq.

Definition digit (c : ascii) : option Z :=
  let n := Z.of_nat (nat_of_ascii c) in
  if (48 <=? n) && (n <=? 57) then Some (n - 48) else None.

Fixpoint number_go (s : string) (acc : Z) : option Z :=
  match s with
  | EmptyString => Some acc
  | String c s' =>
      match digit c with
      | Some d => number_go s' (10 * acc + d)
      | None => None
      end
  end.

(** A decimal number without a sign and without a leading zero. *)
Definition number (s : string) : option Z :=
  match s with
  | EmptyString => None
  | String "0" (String _ _) => None
  | _ => number_go s 0
  end.

Definition numbers (s : string) : option (list Z) :=
  mapM number (split "." s).

Definition parse (v : string) : lib_result SemVer :=
  match numbers v with
  | Some [a; b; c] => LibOk (mkSemVer a b c)
  | _ => LibTypeError ("Invalid Version: " +:+ v)
  end.

Definition compare (a b : SemVer) : comparison :=
  match sv_major a ?= sv_major b with
  | Eq => match sv_minor a ?= sv_minor b with
          | Eq => sv_patch a ?= sv_patch b
          | c => c
          end
  | c => c
  end.

(** One comparator: an operator and a full version. *)
Definition Comparator : Type := Op * SemVer.

Definition test_comparator (v : SemVer) (c : Comparator) : bool :=
  match c.1, compare v c.2 with
  | OpLt, Lt => true
  | OpLe, (Lt | Eq) => true
  | OpGt, Gt => true
  | OpGe, (Gt | Eq) => true
  | OpEq, Eq => true
  | _, _ => false
  end.

(** The least version above every version compatible with a partial one. *)
Definition ceiling (ns : list Z) : option SemVer :=
  match ns with
  | [a] => Some (mkSemVer (a + 1) 0 0)
  | [a; b] => Some (mkSemVer a (b + 1) 0)
  | _ => None
  end.

(** A partial version with its missing components set to zero. *)
Definition floor (ns : list Z) : option SemVer :=
  match ns with
  | [a] => Some (mkSemVer a 0 0)
  | [a; b] => Some (mkSemVer a b 0)
  | [a; b; c] => Some (mkSemVer a b c)
  | _ => None
  end.

(** An operator applied to a version of one, two or three components. *)
Definition desugar (op : Op) (ns : list Z) : option (list Comparator) :=
  lo ← floor ns;
  match ceiling ns with
  | None => Some [(op, lo)]
  | Some hi =>
      Some match op with
           | OpEq => [(OpGe, lo); (OpLt, hi)]
           | OpGt => [(OpGe, hi)]
           | OpGe => [(OpGe, lo)]
           | OpLt => [(OpLt, lo)]
           | OpLe => [(OpLt, hi)]
           end
  end.

Definition comparator (w : string) : option (list Comparator) :=
  match w with
  | String "<" (String "=" v) => numbers v ≫= desugar OpLe
  | String ">" (String "=" v) => numbers v ≫= desugar OpGe
  | String "<" v => numbers v ≫= desugar OpLt
  | String ">" v => numbers v ≫= desugar OpGt
  | String "=" v => numbers v ≫= desugar OpEq
  | v => numbers v ≫= desugar OpEq
  end.

(** [A - B]: at least [A], and at most [B] or below what exceeds [B]. *)
Definition hyphen (a b : string) : option (list Comparator) :=
  na ← numbers a; lo ← floor na;
  nb ← numbers b; hi ← floor nb;
  Some match ceiling nb with
       | None => [(OpGe, lo); (OpLe, hi)]
       | Some top => [(OpGe, lo); (OpLt, top)]
       end.

Definition words (s : string) : list string :=
  filter (λ w, w ≠ "") (split " " s).

Definition alternative (s : string) : option (list Comparator) :=
  match words s with
  | [a; "-"; b] => hyphen a b
  | ws => mjoin <$> mapM comparator ws
  end.

(** [s.split('||')] *)
Fixpoint split_bars (s : string) : list string :=
  match s with
  | EmptyString => [""]
  | String "|" (String "|" s') => "" :: split_bars s'
  | String c s' =>
      match split_bars s' with
      | [] => [String c ""]
      | w :: ws => String c w :: ws
      end
  end.

Definition Range : Type := list (list Comparator).

Definition parse_range (r : string) : lib_result Range :=
  match mapM alternative (split_bars r) with
  | Some alts => LibOk alts
  | None => LibTypeError ("Invalid range: " +:+ r)
  end.

Definition test (r : Range) (v : SemVer) : bool :=
  existsb (forallb (test_comparator v)) r.

Definition lib_bind {A B} (r : lib_result A) (k : A → lib_result B)
  : lib_result B :=
  match r with
  | LibOk a => k a
  | LibTypeError msg => LibTypeError msg
  end.

Definition satisfies (version range : string) : lib_result bool :=
  lib_bind (parse_range range) (λ r,
  lib_bind (parse version) (λ v, LibOk (test r v))).

(** The best version so far and the next candidate. *)
Definition pick (r : Range) (best : option (string * SemVer)) (v : string)
  : lib_result (option (string * SemVer)) :=
  lib_bind (parse v) (λ sv,
    if test r sv then
      match best with
      | Some (_, b) =>
          match compare b sv with
          | Lt => LibOk (Some (v, sv))
          | _ => LibOk best
          end
      | None => LibOk (Some (v, sv))
      end
    else LibOk best).

Fixpoint scan (r : Range) (best : option (string * SemVer))
    (versions : list string) : lib_result (option (string * SemVer)) :=
  match versions with
  | [] => LibOk best
  | v :: vs => lib_bind (pick r best v) (λ best', scan r best' vs)
  end.

Definition maxSatisfying (versions : list string) (range : string)
  : lib_result (option string) :=
  lib_bind (parse_range range) (λ r,
    lib_map (fmap fst) (scan r None versions)).

Definition library : Semver := {|
  semver_parse := parse;
  semver_satisfies := satisfies;
  semver_maxSatisfying := maxSatisfying
|}.

End RefSemver.

(** * Vocabulary of the properties *)

(** Two states agree on a requirement when the references point to equal
    objects and the consoles are equal. *)
Definition agree (l1 : loc) (st1 : State) (l2 : loc) (st2 : State) : Prop :=
  default ∅ (heap st1 !! l1) = default ∅ (heap st2 !! l2)
  ∧ console st1 = console st2.

(** A computation over a requirement reference is a reader when it leaves
    the heap as it found it and its outcome and console depend on the
    requirement only through the object referred to. *)
Definition reader {A} (m : loc → M A) : Prop :=
  ∀ l1 st1 l2 st2, agree l1 st1 l2 st2 →
    (m l1 st1).1 = (m l2 st2).1
    ∧ heap (m l1 st1).2 = heap st1
    ∧ heap (m l2 st2).2 = heap st2
    ∧ console (m l1 st1).2 = console (m l2 st2).2.

(** The outcomes of the simple variant's loop body for the property
    [key: raw] of [Deno.version], from the state [st] whose requirement
    object is [o]. *)
Inductive simple_turn (host : Host) (o : object) (key raw : string) (st : State)
  : result unit * State → Prop :=
| simple_quiet :
    simple_turn host o key raw st (Ok tt, st)
| simple_minor r :
    o !! key = Some r →
    simple_turn host o key raw st
      (Ok tt,
       mkState (heap st)
         (console st
          ++ [Log warn [Simple.minor_message host key (first_three raw)
                          (Some r); "color: yellow"]]))
| simple_patch r :
    o !! key = Some r →
    simple_turn host o key raw st
      (Ok tt,
       mkState (heap st)
         (console st
          ++ [Log info [Simple.patch_message host key (first_three raw)
                          (Some r); "color: grey"]]))
| simple_mismatch r :
    o !! key = Some r →
    simple_turn host o key raw st
      (Throw (Err RangeError
                (Simple.mismatch_message host key (first_three raw) (Some r))),
       st)
| simple_library msg :
    simple_turn host o key raw st (Throw (Err TypeError msg), st)
| simple_array :
    simple_turn host o key raw st (Throw invalid_array_length, st).

(** The outcomes of the catalog-aware variant's loop body. *)
Inductive catalog_turn (importer : option ImportMeta) (o : object)
    (key raw : string) (st : State) : result unit * State → Prop :=
| catalog_quiet :
    catalog_turn importer o key raw st (Ok tt, st)
| catalog_minor r maxOrigin :
    o !! key = Some r →
    catalog_turn importer o key raw st
      (Ok tt,
       mkState (heap st)
         (console st
          ++ [Log warn [Catalog.minor_message importer key (first_three raw)
                          (first_three r) maxOrigin; "color: yellow"]]))
| catalog_patch r maxOrigin :
    o !! key = Some r →
    catalog_turn importer o key raw st
      (Ok tt,
       mkState (heap st)
         (console st
          ++ [Log info [Catalog.patch_message importer key (first_three raw)
                          (first_three r) maxOrigin; "color: grey"]]))
| catalog_mismatch r :
    o !! key = Some r →
    catalog_turn importer o key raw st
      (Throw (Err RangeError
                (Catalog.mismatch_message importer key (first_three raw)
                   (Some r))),
       st)
| catalog_library msg :
    catalog_turn importer o key raw st (Throw (Err TypeError msg), st).

(** [loop T xs st out]: running the turns [T] over [xs] from [st] ends in
    [out]; a turn that throws ends the loop. *)
Inductive loop {X} (T : X → State → result unit * State → Prop)
  : list X → State → result unit * State → Prop :=
| loop_done st :
    loop T [] st (Ok tt, st)
| loop_next x xs st st' out :
    T x st (Ok tt, st') → loop T xs st' out → loop T (x :: xs) st out
| loop_stop x xs st e st' :
    T x st (Throw e, st') → loop T (x :: xs) st (Throw e, st').

(** The console output of one turn for [key]: nothing, or one entry whose
    message starts with the key. *)
Inductive advisory_of (key : string) : list LogEntry → Prop :=
| advisory_none : advisory_of key []
| advisory_one lv rest style :
    advisory_of key [Log lv ["%c" +:+ key +:+ "@" +:+ rest; style]].

(** A turn keeps the heap and adds the output of its key to the console. *)
Definition framed (entry : string * string) (st : State)
    (out : result unit * State) : Prop :=
  heap out.2 = heap st
  ∧ ∃ new, console out.2 = console st ++ new ∧ advisory_of entry.1 new.

(** The requirement a call works with, after [normalize]. *)
Definition requirement_of (version : Arg) (st : State) : object :=
  match version with
  | Undefined => ∅
  | Str s => {[ "deno" := s ]}
  | Obj l => default ∅ (heap st !! l)
  end.

(** The console output of a call, turn by turn. *)
Definition output_by_key (host : Host) (st : State)
    (out : result unit * State) : Prop :=
  ∃ visited rest outs,
    Deno_version host = visited ++ rest
    ∧ Forall2 (λ entry new, advisory_of entry.1 new) visited outs
    ∧ console out.2 = console st ++ concat outs.

(** The candidates [maxMinor] and [maxPatch] hand to [maxSatisfying] for a
    running version. *)
Definition minor_candidates (sv : SemVer) : list string :=
  map (λ m, version_string (sv_major sv) m 0)
      (Simple.range_values (sv_minor sv) 100).

Definition patch_candidates (sv : SemVer) : list string :=
  map (λ p, version_string (sv_major sv) (sv_minor sv) p)
      (Simple.range_values (sv_patch sv) 500).

(** The running version [raw] satisfies the range [r], and the library
    answers the questions of the advisory helpers about it. *)
Definition key_satisfied `{Semver} (raw r : string) : Prop :=
  semver_satisfies (first_three raw) r = LibOk true
  ∧ ∃ sv, semver_parse (first_three raw) = LibOk sv
          ∧ (∃ best, semver_maxSatisfying (minor_candidates sv) r = LibOk best)
          ∧ (∃ best, semver_maxSatisfying (patch_candidates sv) r = LibOk best).

(** Every key of [Deno.version] that the requirement [o] has is satisfied. *)
Definition satisfied `{Semver} (host : Host) (o : object) : Prop :=
  ∀ key raw r,
    (key, raw) ∈ Deno_version host → o !! key = Some r → key_satisfied raw r.

(** The running version [raw] makes a helper of the simple variant ask for
    an array of negative length: its minor exceeds 100, or its patch exceeds
    500 and [maxPatch] is reached, the minor candidates having given no
    advisory to write. *)
Definition overflows `{Semver} (logs : bool) (raw r : string) : Prop :=
  ∃ sv, semver_parse (first_three raw) = LibOk sv
        ∧ (100 < sv_minor sv
           ∨ (500 < sv_patch sv
              ∧ ∃ best,
                  semver_maxSatisfying (minor_candidates sv) r = LibOk best
                  ∧ Boolean best && logs = false)).

(** The host with other version strings in [Deno.version]. *)
Definition with_versions (host : Host) (versions : list (string * string))
  : Host :=
  mkHost versions (import_meta_url host) (JSON_stringify host)
         (denoVersions host).

(** Two listings of [Deno.version] with the same keys, whose version
    strings have the same first three components. *)
Definition same_first_three (vs vs' : list (string * string)) : Prop :=
  Forall2 (λ e e', e.1 = e'.1 ∧ first_three e.2 = first_three e'.2) vs vs'.

(** ** Sample hosts *)

Module Sample.

(** No object is printed with more than its braces here. *)
Definition stringify (o : object) : string := "{}".

Definition versions_194 : list (string * string) :=
  [("deno", "1.9.4"); ("v8", "9.9.115.7"); ("typescript", "4.5.2")].

Definition host_194 : Host :=
  mkHost versions_194 "file:///ensure_version.ts" stringify
         [mkSemVer 1 26 0; mkSemVer 1 9 4; mkSemVer 1 9 3; mkSemVer 1 8 0].

Definition empty_state : State := mkState ∅ [].

(** A state whose heap holds the object [o] at location [1]. *)
Definition state_with (o : object) : State := mkState {[ 1%positive := o ]} [].

(** [Deno.version] of a runtime whose engine reports the build [502]. *)
Definition host_502 : Host :=
  with_versions host_194
    [("deno", "1.9.4"); ("v8", "7.2.502.24"); ("typescript", "4.5.2")].

(** [Deno.version] of a runtime that reports a fourth component. *)
Definition host_1941 : Host :=
  with_versions host_194
    [("deno", "1.9.4.1"); ("v8", "9.9.115.7"); ("typescript", "4.5.2")].

(** [Deno.version] of a runtime past its hundredth minor release. *)
Definition host_1_101 : Host :=
  with_versions host_194
    [("deno", "1.101.0"); ("v8", "9.9.115.7"); ("typescript", "4.5.2")].

End Sample.
Import Sample.

(** ** Vocabulary of the further properties *)

(** The advisory helpers of the simple variant can build their arrays for
    the running version [raw]: its minor is at most 100 and its patch at
    most 500. *)
Definition in_bounds `{Semver} (raw : string) : Prop :=
  ∀ sv, semver_parse (first_three raw) = LibOk sv →
        sv_minor sv ≤ 100 ∧ sv_patch sv ≤ 500.

(** Two requirement objects with the same entries for the keys [keys]. *)
Definition agree_on (keys : list string) (o1 o2 : object) : Prop :=
  ∀ k, k ∈ keys → o1 !! k = o2 !! k.

(** The keys of [Deno.version] whose turn in the catalog-aware variant goes
    past the test for [typescript] and [v8]. *)
Definition catalog_keys (host : Host) : list string :=
  filter (λ k, k ≠ "typescript" ∧ k ≠ "v8") (Deno_version host).*1.

(** [Deno.version] has the keys of its type: [deno], [v8], [typescript]. *)
Definition deno_keys (host : Host) : Prop :=
  ∀ k, k ∈ (Deno_version host).*1 → k = "deno" ∨ k = "v8" ∨ k = "typescript".

(** The versions of the catalog as [maxOriginVersion] hands them to the
    library. *)
Definition catalog_strings (host : Host) : list string :=
  map (λ version,
         version_string (sv_major version) (sv_minor version)
                        (sv_patch version))
      (denoVersions host).

(** What the catalog-aware variant writes for [deno] after a satisfied
    check, [top] being the maximum release in the range and [cur] the
    running version. *)
Definition catalog_advisory (importer : option ImportMeta) (logs : bool)
    (origin required maxOrigin : string) (top cur : SemVer)
  : list LogEntry :=
  if negb (sv_minor top =? sv_minor cur) && logs then
    [Log warn [Catalog.minor_message importer "deno" origin required maxOrigin;
               "color: yellow"]]
  else if negb (sv_patch top =? sv_patch cur) && logs then
    [Log info [Catalog.patch_message importer "deno" origin required maxOrigin;
               "color: grey"]]
  else [].

(** [w] has no character [sep]. *)
Fixpoint free (sep : ascii) (w : string) : bool :=
  match w with
  | EmptyString => true
  | String c w' => negb (Stdlib.Strings.Ascii.eqb c sep) && free sep w'
  end.

(** ** The release catalog *)

(** [denoVersions], the constant of the catalog-aware variant:
    [[...releases.text.matchAll(/### (\d+)\.(\d+)\.(\d+)/g)]] with each group
    read by [parseInt]. The numbers are exact below [2^53]. *)
Module Releases.

(** [\d] *)
Definition digit (c : ascii) : option Z :=
  let n := Z.of_nat (nat_of_ascii c) in
  if (48 <=? n) && (n <=? 57) then Some (n - 48) else None.

(** The longest prefix of digits, as a greedy [\d*] takes it, and the
    rest. *)
Fixpoint digits (s : string) : string * string :=
  match s with
  | EmptyString => ("", "")
  | String c s' =>
      match digit c with
      | Some _ => (String c (digits s').1, (digits s').2)
      | None => ("", s)
      end
  end.

(** [parseInt(ds)] for a string [ds] that starts with a digit (with [0] for
    the others), from the value [acc] of the digits read so far. The value
    is the exact one: it is the host's below [2^53], the host rounds above
    to the nearest number it holds. *)
Fixpoint parseInt (ds : string) (acc : Z) : Z :=
  match ds with
  | EmptyString => acc
  | String c ds' =>
      match digit c with
      | Some d => parseInt ds' (10 * acc + d)
      | None => acc
      end
  end.

(** The rest of [s] after the prefix [p], when [s] starts with [p]. *)
Fixpoint after (p s : string) : option string :=
  match p, s with
  | EmptyString, _ => Some s
  | String a p', String b s' =>
      if Stdlib.Strings.Ascii.eqb a b then after p' s' else None
  | String _ _, EmptyString => None
  end.

(** A match of [### (\d+)\.(\d+)\.(\d+)] at the start of [s]: the three
    numbers and the length of the match. *)
Definition heading (s : string) : option (SemVer * nat) :=
  r1 ← after "### " s;
  let d1 := digits r1 in
  if decide (d1.1 = "") then None else
  r2 ← after "." d1.2;
  let d2 := digits r2 in
  if decide (d2.1 = "") then None else
  r3 ← after "." d2.2;
  let d3 := digits r3 in
  if decide (d3.1 = "") then None else
  Some (mkSemVer (parseInt d1.1 0) (parseInt d2.1 0) (parseInt d3.1 0),
        (6 + String.length d1.1 + String.length d2.1 + String.length d3.1)%nat).

(** The matches from left to right; after a match the search goes on behind
    it: [skip] characters of the last match are still to pass. *)
Fixpoint matchAll (skip : nat) (s : string) : list SemVer :=
  match s with
  | EmptyString => []
  | String _ s' =>
      match skip with
      | S k => matchAll k s'
      | O =>
          match heading s with
          | Some (v, n) => v :: matchAll (pred n) s'
          | None => matchAll 0 s'
          end
      end
  end.

Definition denoVersions (text : string) : list SemVer := matchAll 0 text.

End Releases.

(** A release heading as the notes print it. *)
Definition heading_text (v : SemVer) : string :=
  "### " +:+ version_string (sv_major v) (sv_minor v) (sv_patch v).

(** Release notes: a heading for each version, each followed by its
    text. *)
Fixpoint notes (entries : list (SemVer * string)) : string :=
  match entries with
  | [] => ""
  | (v, body) :: rest => heading_text v +:+ body +:+ notes rest
  end.

(** The components of [v] are numbers JavaScript holds exactly. *)
Definition safe_version (v : SemVer) : Prop :=
  0 ≤ sv_major v < 2 ^ 53 ∧ 0 ≤ sv_minor v < 2 ^ 53 ∧ 0 ≤ sv_patch v < 2 ^ 53.

(** [s] does not start with a digit. *)
Definition no_leading_digit (s : string) : Prop :=
  match s with
  | EmptyString => True
  | String c _ => Releases.digit c = None
  end.

(** A text between two headings that the search passes over: it has no
    [#], and no digit at its start. *)
Definition plain (body : string) : Prop :=
  free "#" body = true ∧ no_leading_digit body.

(** [p] is a non-empty string of digits that [parseInt] reads as [z]. *)
Definition numeral_of (p : string) (z : Z) : Prop :=
  p ≠ "" ∧ Releases.digits p = (p, "") ∧ Releases.parseInt p 0 = z.

(** ** More sample inputs *)

Module Inputs.


(** [{deno: '>=1.8.0', v8: '8.0.0'}] *)
Definition deno_and_v8 : object := {[ "deno" := ">=1.8.0"; "v8" := "8.0.0" ]}.

(** [{deno: '>=1.8.0', typescript: '3.2.1'}] *)
Definition deno_and_typescript : object :=
  {[ "deno" := ">=1.8.0"; "typescript" := "3.2.1" ]}.

(** [{deno: '1.9.4', node: '18'}] *)
Definition deno_and_node : object := {[ "deno" := "1.9.4"; "node" := "18" ]}.

(** Release notes with two versions. *)
Definition two_releases : list (SemVer * string) :=
  [(mkSemVer 1 9 4, " / 2021.05.10; upgrade notes. ");
   (mkSemVer 1 9 3, "")].

End Inputs.

(** * Properties *)

(** ** Runs that only read the requirement *)

Section Readers.
Context {A B : Type}.

Lemma reader_ret (a : A) : reader (λ _, ret a).
Proof. intros l1 st1 l2 st2 [? ?]. by cbn. Qed.

Lemma reader_throw (e : JsError) : reader (λ _, throw (A := A) e).
Proof. intros l1 st1 l2 st2 [? ?]. by cbn. Qed.

Lemma reader_lib (r : lib_result A) : reader (λ _, lib r).
Proof. destruct r; [apply reader_ret | apply reader_throw]. Qed.

Lemma reader_bind (m : loc → M A) (k : loc → A → M B) :
  reader m → (∀ a, reader (λ l, k l a)) → reader (λ l, bind (m l) (k l)).
Proof.
  intros Hm Hk l1 st1 l2 st2 Hag.
  destruct (Hm l1 st1 l2 st2 Hag) as (Hr & Hh1 & Hh2 & Hc).
  unfold bind.
  destruct (m l1 st1) as [r1 st1'], (m l2 st2) as [r2 st2'].
  cbn in Hr, Hh1, Hh2, Hc. subst r2.
  destruct r1 as [a|e]; [|by cbn].
  destruct Hag as [Ho _].
  destruct (Hk a l1 st1' l2 st2') as (? & ? & ? & ?).
  { split; [by rewrite Hh1, Hh2 | done]. }
  repeat split; congruence.
Qed.
End Readers.

Lemma reader_deref : reader deref.
Proof. intros l1 st1 l2 st2 [Ho Hc]. cbn. by rewrite Ho. Qed.

Lemma reader_get_prop key : reader (λ l, get_prop l key).
Proof.
  apply reader_bind; [apply reader_deref | intros o; apply reader_ret].
Qed.

Lemma reader_keys_length : reader keys_length.
Proof.
  apply reader_bind; [apply reader_deref | intros o; apply reader_ret].
Qed.

Lemma reader_console_log lv args : reader (λ _, console_log lv args).
Proof. intros l1 st1 l2 st2 [Ho Hc]. cbn. by rewrite Hc. Qed.

Lemma reader_for_in {X} (xs : list X) (body : loc → X → M unit) :
  (∀ x, reader (λ l, body l x)) → reader (λ l, for_in xs (body l)).
Proof.
  intros Hbody. induction xs as [|x xs IH]; cbn.
  - apply reader_ret.
  - apply (reader_bind (λ l, body l x) (λ l _, for_in xs (body l))); auto.
Qed.

Create HintDb readers.
#[export] Hint Resolve reader_ret reader_throw reader_lib reader_deref
  reader_get_prop reader_keys_length reader_console_log : readers.

(** Goes through a computation along its binds and case distinctions. *)
Ltac reader_step :=
  lazymatch goal with
  | |- reader (λ l, bind _ _) => apply reader_bind; [| intros ?]
  | |- reader (λ _, match ?x with _ => _ end) => destruct x
  | |- reader _ => solve [auto with readers]
  end.
Ltac reader_steps := cbv zeta; repeat reader_step.

Section ReaderOfVariants.
Context `{Semver} (host : Host).

Lemma reader_range min max : reader (λ _, Simple.range min max).
Proof. unfold Simple.range. reader_steps. Qed.

Lemma reader_maxMinor o r : reader (λ _, Simple.maxMinor o r).
Proof.
  pose proof reader_range. unfold Simple.maxMinor. reader_steps.
Qed.

Lemma reader_maxPatch o r : reader (λ _, Simple.maxPatch o r).
Proof.
  pose proof reader_range. unfold Simple.maxPatch. reader_steps.
Qed.

Lemma reader_simple_check_key logs entry :
  reader (λ l, Simple.check_key host l logs entry).
Proof.
  pose proof reader_maxMinor. pose proof reader_maxPatch.
  unfold Simple.check_key. reader_steps.
Qed.

Lemma reader_catalog_check_key logs importer entry :
  reader (λ l, Catalog.check_key host l logs importer entry).
Proof.
  unfold Catalog.check_key, Catalog.maxOriginVersion. reader_steps.
Qed.

(** After [normalize], the call only reads its requirement. *)
Lemma reader_bind_ret {X} (k : loc → M X) :
  reader k → reader (λ l, bind (ret l) k).
Proof. intros Hk l1 st1 l2 st2 Hag. exact (Hk l1 st1 l2 st2 Hag). Qed.

Lemma reader_simple_ensureVersion logs :
  reader (λ l, Simple.ensureVersion host (Obj l) logs).
Proof.
  unfold Simple.ensureVersion, normalize. apply reader_bind_ret.
  pose proof (reader_simple_check_key logs). reader_steps.
  by apply reader_for_in.
Qed.

Lemma reader_catalog_ensureVersion logs importer :
  reader (λ l, Catalog.ensureVersion host (Obj l) logs importer).
Proof.
  unfold Catalog.ensureVersion, normalize. apply reader_bind_ret.
  pose proof (reader_catalog_check_key logs importer). reader_steps.
  by apply reader_for_in.
Qed.

(** A bare string runs as the fresh object [{deno: s}]. *)
Lemma simple_ensureVersion_Str s logs st :
  Simple.ensureVersion host (Str s) logs st
  = Simple.ensureVersion host (Obj (fresh (dom (heap st)))) logs
      (mkState (<[fresh (dom (heap st)) := {[ "deno" := s ]}]> (heap st))
               (console st)).
Proof. reflexivity. Qed.

Lemma catalog_ensureVersion_Str s logs importer st :
  Catalog.ensureVersion host (Str s) logs importer st
  = Catalog.ensureVersion host (Obj (fresh (dom (heap st)))) logs importer
      (mkState (<[fresh (dom (heap st)) := {[ "deno" := s ]}]> (heap st))
               (console st)).
Proof. reflexivity. Qed.

(** C10. A call with a mapping leaves the heap, and so the caller's
    mapping, as it found it: no property of any object is added, removed
    or reassigned, whether the call returns or throws, in both variants. *)
Theorem C10_requirement_not_mutated (l : loc) (logs : bool)
    (importer : option ImportMeta) (st : State) :
  heap (Simple.ensureVersion host (Obj l) logs st).2 = heap st
  ∧ heap (Catalog.ensureVersion host (Obj l) logs importer st).2 = heap st.
Proof.
  split.
  - by destruct (reader_simple_ensureVersion logs l st l st) as (_ & ? & _).
  - by destruct (reader_catalog_ensureVersion logs importer l st l st)
      as (_ & ? & _).
Qed.

(** C6. A bare range string [s] is observed exactly as the mapping
    [{deno: s}]: same outcome, same thrown error, same console output, for
    either logs flag and in both variants. *)
Theorem C6_string_is_deno_mapping (s : string) (logs : bool)
    (importer : option ImportMeta) (st : State) (l : loc) :
  heap st !! l = Some {[ "deno" := s ]} →
  observable (Simple.ensureVersion host (Str s) logs st)
  = observable (Simple.ensureVersion host (Obj l) logs st)
  ∧ observable (Catalog.ensureVersion host (Str s) logs importer st)
    = observable (Catalog.ensureVersion host (Obj l) logs importer st).
Proof.
  intros Hl.
  assert (agree (fresh (dom (heap st)))
            (mkState (<[fresh (dom (heap st)) := {[ "deno" := s ]}]> (heap st))
                     (console st)) l st) as Hag.
  { split; [|done]. cbn. by rewrite lookup_insert_eq, Hl. }
  unfold observable. split.
  - rewrite simple_ensureVersion_Str.
    destruct (reader_simple_ensureVersion logs _ _ _ _ Hag)
      as (-> & _ & _ & ->).
    done.
  - rewrite catalog_ensureVersion_Str.
    destruct (reader_catalog_ensureVersion logs importer _ _ _ _ Hag)
      as (-> & _ & _ & ->).
    done.
Qed.
End ReaderOfVariants.

(** ** What one turn of the loop can do *)

Section Turns.
Context `{Semver} (host : Host).

Lemma simple_check_key_turn l logs key raw st :
  simple_turn host (default ∅ (heap st !! l)) key raw st
    (Simple.check_key host l logs (key, raw) st).
Proof.
  unfold Simple.check_key, Simple.maxMinor, Simple.maxPatch, Simple.range,
    get_prop, deref, lib, bind, ret, throw, console_log.
  cbn.
  destruct st as [h c]; cbn.
  repeat (case_match; simplify_eq/=); try by econstructor.
  all: match goal with
       | Hk : _ !! _ = Some _ |- _ => rewrite Hk; by econstructor
       end.
Qed.

Lemma catalog_check_key_turn l logs importer key raw st :
  catalog_turn importer (default ∅ (heap st !! l)) key raw st
    (Catalog.check_key host l logs importer (key, raw) st).
Proof.
  unfold Catalog.check_key, Catalog.maxOriginVersion,
    get_prop, deref, lib, bind, ret, throw, console_log.
  cbn.
  destruct st as [h c]; cbn.
  destruct (default ∅ (h !! l) !! key) as [r|] eqn:Hk; cbn;
    [|by constructor].
  repeat (case_match; simplify_eq/=); try by econstructor.
  all: rewrite Hk; by econstructor.
Qed.

End Turns.

(** ** The loop as a sequence of turns *)

(** [for_in] runs the turns of its body, as long as an invariant of the
    state is kept by the turns that return. *)
Lemma for_in_loop {X} (T : X → State → result unit * State → Prop)
    (I : State → Prop) (body : X → M unit) :
  (∀ x st, I st → T x st (body x st)) →
  (∀ x st st', I st → T x st (Ok tt, st') → I st') →
  ∀ xs st, I st → loop T xs st (for_in xs body st).
Proof.
  intros Hbody Hkeep xs. induction xs as [|x xs IH]; intros st Hst; cbn.
  - constructor.
  - unfold bind. pose proof (Hbody x st Hst) as Hx.
    destruct (body x st) as [[[]|e] st'].
    + eapply loop_next; [done|]. eauto.
    + by apply loop_stop.
Qed.

Lemma loop_framed (T : string * string → State → result unit * State → Prop)
    xs st out :
  (∀ x st out, T x st out → framed x st out) →
  loop T xs st out →
  heap out.2 = heap st
  ∧ ∃ visited rest outs,
      xs = visited ++ rest
      ∧ Forall2 (λ entry new, advisory_of entry.1 new) visited outs
      ∧ console out.2 = console st ++ concat outs.
Proof.
  intros HT. induction 1 as [st|x xs st st' out Hx Hxs IH|x xs st e st' Hx].
  - split; [done|]. exists [], [], [].
    split_and!; [done|constructor|cbn; by rewrite app_nil_r].
  - destruct (HT _ _ _ Hx) as (Hh & new & Hc & Hnew). cbn in Hh, Hc.
    destruct IH as (Hh' & visited & rest & outs & -> & Hall & Hc').
    split; [congruence|].
    exists (x :: visited), rest, (new :: outs).
    split_and!; [done|constructor; [exact Hnew|exact Hall]|].
    cbn. by rewrite Hc', Hc, <-app_assoc.
  - destruct (HT _ _ _ Hx) as (Hh & new & Hc & Hnew). cbn in Hh, Hc.
    split; [done|].
    exists [x], xs, [new].
    split_and!; [done|constructor; [exact Hnew|constructor]|].
    cbn. by rewrite app_nil_r.
Qed.

(** A loop that throws was stopped by the turn of one of its elements, run
    from a state the earlier turns reached. *)
Lemma loop_thrown {X} (T : X → State → result unit * State → Prop)
    (I : State → Prop) xs st e st' :
  (∀ x st st', I st → T x st (Ok tt, st') → I st') →
  I st →
  loop T xs st (Throw e, st') →
  ∃ x st0, x ∈ xs ∧ I st0 ∧ T x st0 (Throw e, st').
Proof.
  intros Hkeep Hst Hloop. remember (Throw e, st') as out eqn:Hout.
  revert Hst Hout.
  induction Hloop as [st|x xs st st1 out Hx Hxs IH|x xs st e1 st1 Hx];
    intros Hst Hout.
  - done.
  - destruct IH as (y & st0 & Hy & Hst0 & HT); [by eauto|done|].
    exists y, st0. split; [by right|done].
  - simplify_eq. exists x, st. split; [by left|done].
Qed.

Section Frames.
Context `{Semver} (host : Host).

Lemma simple_turn_framed o key raw st out :
  simple_turn host o key raw st out → framed (key, raw) st out.
Proof.
  destruct 1; (split; [done|]); cbn;
    solve [ exists []; split; [by rewrite app_nil_r | constructor]
          | eexists [_]; split; [done | constructor] ].
Qed.

Lemma catalog_turn_framed importer o key raw st out :
  catalog_turn importer o key raw st out → framed (key, raw) st out.
Proof.
  destruct 1; (split; [done|]); cbn;
    solve [ exists []; split; [by rewrite app_nil_r | constructor]
          | eexists [_]; split; [done | constructor] ].
Qed.
End Frames.

(** ** Strings that occur in a message *)

Section Includes.
Implicit Types s t p q : string.

Lemma app_cons a s t : String a s +:+ t = String a (s +:+ t).
Proof. reflexivity. Qed.

Lemma app_nil_end s : s +:+ "" = s.
Proof. induction s as [|a s IH]; [done|]. by rewrite app_cons, IH. Qed.

Lemma app_assoc_string s t p : (s +:+ t) +:+ p = s +:+ t +:+ p.
Proof. induction s as [|a s IH]; [done|]. by rewrite !app_cons, IH. Qed.

Lemma includes_self t : includes t t.
Proof. exists "", "". by rewrite app_nil_end. Qed.

Lemma includes_here t q : includes (t +:+ q) t.
Proof. by exists "", q. Qed.

Lemma includes_app_l p s t : includes s t → includes (p +:+ s) t.
Proof.
  intros (pre & post & ->). exists (p +:+ pre), post.
  by rewrite app_assoc_string.
Qed.

Lemma includes_join sep (l : list string) k :
  k ∈ l → includes (join sep l) k.
Proof.
  induction l as [|x [|y l] IH]; intros Hk.
  - by apply elem_of_nil in Hk.
  - apply list_elem_of_singleton in Hk as ->. apply includes_self.
  - apply elem_of_cons in Hk as [->|Hk].
    + apply includes_here.
    + change (join sep (x :: y :: l)) with (x +:+ sep +:+ join sep (y :: l)).
      by do 2 apply includes_app_l; apply IH.
Qed.
End Includes.

(** Finds a part of a message built by appending. *)
Ltac find_included :=
  solve [ apply includes_self
        | apply includes_here
        | apply includes_app_l; find_included ].

(** ** Whole runs *)

Lemma includes_prefix_of (s q t : string) :
  includes s t → includes (s +:+ q) t.
Proof.
  intros (pre & post & ->). exists pre, (post +:+ q).
  by rewrite !app_assoc_string.
Qed.

Section Runs.
Context `{Semver} (host : Host).

Lemma simple_ensureVersion_Obj l logs st :
  Simple.ensureVersion host (Obj l) logs st
  = if Nat.eqb (size (default ∅ (heap st !! l))) 0
    then (Throw (Err TypeError (empty_message host (default ∅ (heap st !! l)))),
          st)
    else for_in (Deno_version host) (Simple.check_key host l logs) st.
Proof.
  unfold Simple.ensureVersion, normalize, keys_length, deref, bind, ret.
  by destruct (Nat.eqb _ 0).
Qed.

Lemma catalog_ensureVersion_Obj l logs importer st :
  Catalog.ensureVersion host (Obj l) logs importer st
  = if Nat.eqb (size (default ∅ (heap st !! l))) 0
    then (Throw (Err TypeError (empty_message host (default ∅ (heap st !! l)))),
          st)
    else for_in (Deno_version host)
           (Catalog.check_key host l logs importer) st.
Proof.
  unfold Catalog.ensureVersion, normalize, keys_length, deref, bind, ret.
  by destruct (Nat.eqb _ 0).
Qed.

(** A call with a string or a mapping runs as a call with a mapping whose
    object is [requirement_of], from a state with the same console. *)
Lemma simple_run_on_object version logs st :
  version ≠ Undefined →
  ∃ l st', Simple.ensureVersion host version logs st
           = Simple.ensureVersion host (Obj l) logs st'
           ∧ default ∅ (heap st' !! l) = requirement_of version st
           ∧ console st' = console st.
Proof.
  destruct version as [|s|l]; [done| |]; intros _.
  - eexists _, _. split; [apply simple_ensureVersion_Str|].
    split; [|done]. cbn. by rewrite lookup_insert_eq.
  - by exists l, st.
Qed.

Lemma catalog_run_on_object version logs importer st :
  version ≠ Undefined →
  ∃ l st', Catalog.ensureVersion host version logs importer st
           = Catalog.ensureVersion host (Obj l) logs importer st'
           ∧ default ∅ (heap st' !! l) = requirement_of version st
           ∧ console st' = console st.
Proof.
  destruct version as [|s|l]; [done| |]; intros _.
  - eexists _, _. split; [apply catalog_ensureVersion_Str|].
    split; [|done]. cbn. by rewrite lookup_insert_eq.
  - by exists l, st.
Qed.

(** The loop of a call is a sequence of turns over one requirement. *)
Lemma simple_loop l logs st :
  loop (λ entry s out,
          simple_turn host (default ∅ (heap st !! l)) entry.1 entry.2 s out)
       (Deno_version host) st
       (for_in (Deno_version host) (Simple.check_key host l logs) st).
Proof.
  apply (for_in_loop _ (λ s, heap s = heap st)); [| |done].
  - intros [key raw] s Hs. rewrite <-Hs. apply simple_check_key_turn.
  - intros [key raw] s s' Hs Hturn.
    apply simple_turn_framed in Hturn as [Hh _]. cbn in Hh. congruence.
Qed.

Lemma catalog_loop l logs importer st :
  loop (λ entry s out,
          catalog_turn importer (default ∅ (heap st !! l))
            entry.1 entry.2 s out)
       (Deno_version host) st
       (for_in (Deno_version host)
          (Catalog.check_key host l logs importer) st).
Proof.
  apply (for_in_loop _ (λ s, heap s = heap st)); [| |done].
  - intros [key raw] s Hs. rewrite <-Hs. apply catalog_check_key_turn.
  - intros [key raw] s s' Hs Hturn.
    apply catalog_turn_framed in Hturn as [Hh _]. cbn in Hh. congruence.
Qed.

Lemma output_by_key_none st r st' :
  console st' = console st → output_by_key host st (r, st').
Proof.
  intros Hc. exists [], (Deno_version host), [].
  split_and!; [done|constructor|cbn; by rewrite app_nil_r].
Qed.

Lemma simple_output_Obj l logs st :
  output_by_key host st (Simple.ensureVersion host (Obj l) logs st).
Proof.
  rewrite simple_ensureVersion_Obj. case_match.
  - by apply output_by_key_none.
  - eapply loop_framed; [|apply simple_loop].
    intros [key raw] s out. apply simple_turn_framed.
Qed.

Lemma catalog_output_Obj l logs importer st :
  output_by_key host st (Catalog.ensureVersion host (Obj l) logs importer st).
Proof.
  rewrite catalog_ensureVersion_Obj. case_match.
  - by apply output_by_key_none.
  - eapply loop_framed; [|apply catalog_loop].
    intros [key raw] s out. apply catalog_turn_framed.
Qed.

Lemma output_by_key_console st st' out :
  console st' = console st →
  output_by_key host st' out → output_by_key host st out.
Proof. unfold output_by_key. by intros ->. Qed.

(** C7. In one call every key of [Deno.version] is visited at most once,
    in order, and the turn of a key writes at most one advisory, whose
    message starts with that key: a minor advisory is never followed by a
    patch advisory for the same key. Both variants. *)
Theorem C7_one_advisory_per_key (version : Arg) (logs : bool)
    (importer : option ImportMeta) (st : State) :
  output_by_key host st (Simple.ensureVersion host version logs st)
  ∧ output_by_key host st (Catalog.ensureVersion host version logs importer st).
Proof.
  destruct (decide (version = Undefined)) as [->|Hv].
  { split; by apply output_by_key_none. }
  split.
  - destruct (simple_run_on_object version logs st Hv)
      as (l & st' & -> & _ & Hc).
    eapply output_by_key_console; [done|]. apply simple_output_Obj.
  - destruct (catalog_run_on_object version logs importer st Hv)
      as (l & st' & -> & _ & Hc).
    eapply output_by_key_console; [done|]. apply catalog_output_Obj.
Qed.

(** A [RangeError] of the simple variant is the host's, for an array of
    negative length, or reports a mismatch for a key of [Deno.version]
    that the requirement has. *)
Lemma simple_thrown_range version logs st e :
  (Simple.ensureVersion host version logs st).1 = Throw e →
  err_class e = RangeError →
  e = invalid_array_length
  ∨ ∃ key raw r,
      (key, raw) ∈ Deno_version host
      ∧ requirement_of version st !! key = Some r
      ∧ e = Err RangeError
              (Simple.mismatch_message host key (first_three raw) (Some r)).
Proof.
  intros Hrun Hcls.
  destruct (decide (version = Undefined)) as [->|Hv].
  { cbn in Hrun. by simplify_eq. }
  destruct (simple_run_on_object version logs st Hv)
    as (l & st' & Heq & Ho & _).
  rewrite Heq, simple_ensureVersion_Obj in Hrun.
  case_match; [cbn in Hrun; by simplify_eq|].
  pose proof (simple_loop l logs st') as Hloop.
  destruct (for_in _ _ st') as [r st''] eqn:Hfor. cbn in Hrun. subst r.
  apply (loop_thrown _ (λ _, True)) in Hloop
    as ([key raw] & s0 & Hin & _ & Hturn); [|done..].
  rewrite Ho in Hturn. cbn in Hturn.
  inversion Hturn; subst; [right; eauto 10|done|by left].
Qed.

(** A [RangeError] of the catalog-aware variant reports a mismatch. *)
Lemma catalog_thrown_range version logs importer st e :
  (Catalog.ensureVersion host version logs importer st).1 = Throw e →
  err_class e = RangeError →
  ∃ key raw r,
    (key, raw) ∈ Deno_version host
    ∧ requirement_of version st !! key = Some r
    ∧ e = Err RangeError
            (Catalog.mismatch_message importer key (first_three raw)
               (Some r)).
Proof.
  intros Hrun Hcls.
  destruct (decide (version = Undefined)) as [->|Hv].
  { cbn in Hrun. by simplify_eq. }
  destruct (catalog_run_on_object version logs importer st Hv)
    as (l & st' & Heq & Ho & _).
  rewrite Heq, catalog_ensureVersion_Obj in Hrun.
  case_match; [cbn in Hrun; by simplify_eq|].
  pose proof (catalog_loop l logs importer st') as Hloop.
  destruct (for_in _ _ st') as [r st''] eqn:Hfor. cbn in Hrun. subst r.
  apply (loop_thrown _ (λ _, True)) in Hloop
    as ([key raw] & s0 & Hin & _ & Hturn); [|done..].
  rewrite Ho in Hturn. cbn in Hturn.
  inversion Hturn; subst; [eauto 10|done].
Qed.

(** C8. The message of every mismatch error names the key, the running
    version and the required range: the running version as it is compared,
    [origin], its first three dot-separated components, and the range as
    the requirement holds it. In the catalog-aware variant the message
    also holds the importer's url when an importer was given. The only
    other [RangeError] of a call is the host's for an array of negative
    length, in the simple variant, which is not a mismatch error. *)
Theorem C8_mismatch_message (version : Arg) (logs : bool)
    (importer : option ImportMeta) (st : State) (e : JsError) :
  err_class e = RangeError →
  ((Simple.ensureVersion host version logs st).1 = Throw e
   ∧ e ≠ invalid_array_length)
  ∨ (Catalog.ensureVersion host version logs importer st).1 = Throw e →
  ∃ key raw range,
    (key, raw) ∈ Deno_version host
    ∧ requirement_of version st !! key = Some range
    ∧ includes (err_message e) key
    ∧ includes (err_message e) (first_three raw)
    ∧ includes (err_message e) range
    ∧ ((Catalog.ensureVersion host version logs importer st).1 = Throw e →
       ∀ i, importer = Some i → includes (err_message e) (url i)).
Proof.
  intros Hcls Hthrown.
  assert ((Catalog.ensureVersion host version logs importer st).1 = Throw e →
          ∀ i, importer = Some i → includes (err_message e) (url i)) as Hurl.
  { intros Hrun i ->.
    destruct (catalog_thrown_range _ _ _ _ _ Hrun Hcls)
      as (key & raw & r & _ & _ & ->).
    cbn. unfold Catalog.mismatch_message, Catalog.importerName.
    find_included. }
  destruct Hthrown as [[Hrun Hne]|Hrun].
  - destruct (simple_thrown_range _ _ _ _ Hrun Hcls)
      as [->|(key & raw & r & Hin & Hr & ->)]; [done|].
    exists key, raw, r. cbn. unfold Simple.mismatch_message.
    split_and!; [done|done|find_included..|done].
  - destruct (catalog_thrown_range _ _ _ _ _ Hrun Hcls)
      as (key & raw & r & Hin & Hr & ->).
    exists key, raw, r. cbn. unfold Catalog.mismatch_message.
    split_and!; [done|done|find_included..|done].
Qed.

(** C3. A call with [undefined] and a call with the empty mapping both
    throw a [TypeError], in both variants and whatever the logs flag; the
    message for the empty mapping lists every key of [Deno.version]. *)
Theorem C3_undefined_and_empty_rejected (l : loc) (logs : bool)
    (importer : option ImportMeta) (st : State) :
  heap st !! l = Some ∅ →
  Simple.ensureVersion host Undefined logs st
  = (Throw (Err TypeError undefined_message), st)
  ∧ Catalog.ensureVersion host Undefined logs importer st
    = (Throw (Err TypeError undefined_message), st)
  ∧ Simple.ensureVersion host (Obj l) logs st
    = (Throw (Err TypeError (empty_message host ∅)), st)
  ∧ Catalog.ensureVersion host (Obj l) logs importer st
    = (Throw (Err TypeError (empty_message host ∅)), st)
  ∧ Forall (λ entry, includes (empty_message host ∅) entry.1)
      (Deno_version host).
Proof.
  intros Hl. split_and!; [done|done| | |].
  - by rewrite simple_ensureVersion_Obj, Hl.
  - by rewrite catalog_ensureVersion_Obj, Hl.
  - apply Forall_forall. intros [key raw] Hin. unfold empty_message.
    do 5 apply includes_app_l.
    eapply includes_prefix_of, includes_join.
    apply list_elem_of_fmap. by exists (key, raw).
Qed.
End Runs.

(** ** Single keys, satisfied requirements and [range] *)

Lemma for_in_skipped {X} (body : X → M unit) (I : State → Prop) xs st :
  (∀ y s, y ∈ xs → I s → body y s = (Ok tt, s)) →
  I st → for_in xs body st = (Ok tt, st).
Proof.
  induction xs as [|x xs IH]; intros Hskip Hst; [done|].
  cbn. unfold bind. rewrite (Hskip x st); [|by left|done].
  apply IH; [|done]. intros y s Hy. apply Hskip. by right.
Qed.

(** When the turns of all elements but one return at once, the loop is the
    turn of that element. *)
Lemma for_in_only {X} (body : X → M unit) (I : State → Prop) pre x post st :
  (∀ y s, y ∈ pre ++ post → I s → body y s = (Ok tt, s)) →
  (∀ s', body x st = (Ok tt, s') → I s') →
  I st →
  for_in (pre ++ x :: post) body st = body x st.
Proof.
  intros Hskip Hkeep Hst. induction pre as [|y pre IH].
  - cbn. unfold bind. destruct (body x st) as [[[]|e] s'] eqn:Hx; [|done].
    apply (for_in_skipped _ I); [|by apply Hkeep].
    intros z s Hz. by apply Hskip.
  - cbn. unfold bind. rewrite (Hskip y st); [|by left|done].
    apply IH. intros z s Hz. apply Hskip. by right.
Qed.

(** A loop whose turns return or throw [e], with an element whose turn
    throws [e], throws [e]. *)
Lemma for_in_stops {X} (body : X → M unit) (I : State → Prop) (e : JsError)
    xs x st :
  (∀ y s, y ∈ xs → I s →
     (∃ s', body y s = (Ok tt, s') ∧ I s') ∨ (∃ s', body y s = (Throw e, s'))) →
  x ∈ xs →
  (∀ s, I s → ∃ s', body x s = (Throw e, s')) →
  I st →
  (for_in xs body st).1 = Throw e.
Proof.
  intros Hturn Hx Hstop. revert st.
  induction xs as [|y xs IH]; intros st Hst; [by apply elem_of_nil in Hx|].
  cbn. unfold bind.
  apply elem_of_cons in Hx as [<-|Hx].
  { destruct (Hstop st Hst) as [s' ->]. done. }
  destruct (Hturn y st) as [(s' & -> & Hs')|(s' & ->)]; [by left|done| |done].
  apply IH; [|done|done]. intros z s Hz. apply Hturn. by right.
Qed.

Section SingleKey.
Context `{Semver} (host : Host).

Lemma simple_check_key_skip l logs key raw st :
  default ∅ (heap st !! l) !! key = None →
  Simple.check_key host l logs (key, raw) st = (Ok tt, st).
Proof.
  intros Hnone. unfold Simple.check_key, get_prop, deref, bind, ret. cbn.
  by rewrite Hnone.
Qed.

(** The entries of [Deno.version] other than [key: raw], when the keys
    are distinct, have another key. *)
Lemma other_entries key raw :
  NoDup (Deno_version host).*1 →
  (key, raw) ∈ Deno_version host →
  ∃ pre post,
    Deno_version host = pre ++ (key, raw) :: post
    ∧ ∀ y, y ∈ pre ++ post → y.1 ≠ key.
Proof.
  intros Hnd Hin. apply list_elem_of_split in Hin as (pre & post & Heq).
  exists pre, post. split; [done|].
  rewrite Heq, fmap_app, fmap_cons in Hnd. cbn in Hnd.
  apply NoDup_app in Hnd as (_ & Hpre & Hpost).
  apply NoDup_cons in Hpost as [Hpost _].
  intros y Hy Hkey. apply elem_of_app in Hy as [Hy|Hy].
  - apply (Hpre key); [|by left]. apply list_elem_of_fmap. by exists y.
  - apply Hpost. apply list_elem_of_fmap. by exists y.
Qed.

(** With a single key in the requirement, the call is the turn of that
    key. *)
Lemma simple_single_key l logs st key raw r :
  default ∅ (heap st !! l) = {[ key := r ]} →
  NoDup (Deno_version host).*1 →
  (key, raw) ∈ Deno_version host →
  Simple.ensureVersion host (Obj l) logs st
  = Simple.check_key host l logs (key, raw) st.
Proof.
  intros Ho Hnd Hin.
  rewrite simple_ensureVersion_Obj, Ho, map_size_singleton.
  change (Nat.eqb 1 0) with false. cbv iota.
  destruct (other_entries key raw Hnd Hin) as (pre & post & -> & Hother).
  apply (for_in_only _ (λ s, heap s = heap st)); [| |done].
  - intros [k v] s Hy Hs. apply simple_check_key_skip.
    rewrite Hs, Ho. apply lookup_singleton_ne.
    intros ->. by apply (Hother _ Hy).
  - intros s' Hturn.
    pose proof (simple_check_key_turn host l logs key raw st) as Ht.
    rewrite Hturn in Ht. by apply simple_turn_framed in Ht as [? _].
Qed.

Lemma simple_turn_minor_overflow l logs st key raw r sv :
  default ∅ (heap st !! l) !! key = Some r →
  semver_satisfies (first_three raw) r = LibOk true →
  semver_parse (first_three raw) = LibOk sv →
  100 < sv_minor sv →
  Simple.check_key host l logs (key, raw) st = (Throw invalid_array_length, st).
Proof.
  intros Hr Hsat Hparse Hminor. unfold first_three in Hsat, Hparse.
  unfold Simple.check_key, Simple.maxMinor, Simple.range, semver_major,
    semver_minor, get_prop, deref, bind, ret.
  cbn. rewrite Hr, Hsat, Hparse. cbn.
  by destruct (Z.ltb_spec (100 - sv_minor sv) 0); [|lia].
Qed.

Lemma simple_turn_patch_overflow l logs st key raw r sv best :
  default ∅ (heap st !! l) !! key = Some r →
  semver_satisfies (first_three raw) r = LibOk true →
  semver_parse (first_three raw) = LibOk sv →
  sv_minor sv ≤ 100 →
  500 < sv_patch sv →
  semver_maxSatisfying
    (map (λ m, version_string (sv_major sv) m 0)
         (Simple.range_values (sv_minor sv) 100)) r = LibOk best →
  Boolean best && logs = false →
  Simple.check_key host l logs (key, raw) st = (Throw invalid_array_length, st).
Proof.
  intros Hr Hsat Hparse Hminor Hpatch Hbest Hquiet.
  unfold first_three in Hsat, Hparse.
  unfold Simple.check_key, Simple.maxMinor, Simple.maxPatch, Simple.range,
    semver_major, semver_minor, semver_patch, get_prop, deref, bind, ret.
  cbn. rewrite Hr, Hsat, Hparse. cbn.
  destruct (Z.ltb_spec (100 - sv_minor sv) 0); [lia|]. cbn.
  rewrite Hbest. cbn. rewrite Hquiet.
  by destruct (Z.ltb_spec (500 - sv_patch sv) 0); [|lia].
Qed.

Lemma range_throws min max st :
  (Simple.range min max st).1 = Throw invalid_array_length ↔ max < min.
Proof.
  unfold Simple.range.
  destruct (Z.ltb_spec (max - min) 0); cbn; split; (done || lia).
Qed.

Lemma simple_turn_overflows l logs st key raw r :
  default ∅ (heap st !! l) !! key = Some r →
  semver_satisfies (first_three raw) r = LibOk true →
  overflows logs raw r →
  Simple.check_key host l logs (key, raw) st = (Throw invalid_array_length, st).
Proof.
  intros Hr Hsat (sv & Hparse & Hover).
  destruct (decide (100 < sv_minor sv)) as [Hminor|Hminor].
  { by eapply simple_turn_minor_overflow. }
  destruct Hover as [?|(Hpatch & best & Hbest & Hquiet)]; [done|].
  eapply simple_turn_patch_overflow; [done..|lia|done|exact Hbest|done].
Qed.

(** The turn of a satisfied key returns, or asks for an array of negative
    length. *)
Lemma simple_turn_satisfied l logs st key raw r :
  default ∅ (heap st !! l) !! key = Some r →
  key_satisfied raw r →
  (∃ st', Simple.check_key host l logs (key, raw) st = (Ok tt, st')
          ∧ heap st' = heap st)
  ∨ Simple.check_key host l logs (key, raw) st
    = (Throw invalid_array_length, st).
Proof.
  intros Hr (Hsat & sv & Hparse & [b1 Hb1] & [b2 Hb2]).
  unfold first_three in Hsat, Hparse.
  unfold minor_candidates in Hb1. unfold patch_candidates in Hb2.
  unfold Simple.check_key, Simple.maxMinor, Simple.maxPatch, Simple.range,
    semver_major, semver_minor, semver_patch, get_prop, deref, bind, ret.
  cbn. rewrite Hr, Hsat, Hparse. cbn.
  destruct (100 - sv_minor sv <? 0); cbn; [by right|].
  rewrite Hb1. cbn.
  destruct (Boolean b1 && logs); cbn; [left; by eexists|].
  destruct (500 - sv_patch sv <? 0); cbn; [by right|].
  rewrite Hb2. cbn.
  destruct (Boolean b2 && logs); cbn; left; by eexists.
Qed.

(** C9. In the simple variant [range(min, max)] throws the host's
    [RangeError] for a negative array length exactly when [max < min]; so a
    call whose requirement is satisfied throws that error, with either logs
    flag, when a required key has a running minor above 100, and also when
    its running patch is above 500 and [maxPatch] is reached. *)
Theorem C9_range_negative_length (version : Arg) (logs : bool) (st : State)
    (key raw r : string) :
  satisfied host (requirement_of version st) →
  (key, raw) ∈ Deno_version host →
  requirement_of version st !! key = Some r →
  overflows logs raw r →
  (Simple.ensureVersion host version logs st).1 = Throw invalid_array_length
  ∧ ∀ min max s,
      (Simple.range min max s).1 = Throw invalid_array_length ↔ max < min.
Proof.
  intros Hall Hin Hr Hover. split; [|apply range_throws].
  destruct (decide (version = Undefined)) as [->|Hv]; [done|].
  destruct (simple_run_on_object host version logs st Hv)
    as (l & st' & -> & Ho & _).
  rewrite <-Ho in Hall, Hr.
  rewrite simple_ensureVersion_Obj.
  destruct (Nat.eqb_spec (size (default ∅ (heap st' !! l))) 0) as [Hsize|_].
  { apply map_size_empty_iff in Hsize. by rewrite Hsize in Hr. }
  apply (for_in_stops _ (λ s, heap s = heap st') _ _ (key, raw));
    [|done| |done].
  - intros [k v] s Hy Hs. cbn.
    destruct (default ∅ (heap st' !! l) !! k) as [rk|] eqn:Hk.
    + destruct (simple_turn_satisfied l logs s k v rk)
        as [(s' & Hrun & Hh)|Hrun].
      * by rewrite Hs.
      * by apply (Hall k v rk).
      * left. exists s'. split; [done|congruence].
      * right. by exists s.
    + left. exists s. split; [|done].
      apply simple_check_key_skip. by rewrite Hs.
  - intros s Hs. exists s.
    apply (simple_turn_overflows l logs s key raw r); [by rewrite Hs| |done].
    by destruct (Hall key raw r Hin Hr) as [? _].
Qed.
(** With a single key in the requirement, the simple variant throws the
    mismatch of that key when the library finds the truncated running
    version outside the range as the caller wrote it; so for every key of
    [Deno.version], [typescript] and [v8] among them. *)
Lemma simple_mismatch_single_key version logs st key raw r :
  requirement_of version st = {[ key := r ]} →
  NoDup (Deno_version host).*1 →
  (key, raw) ∈ Deno_version host →
  semver_satisfies (first_three raw) r = LibOk false →
  (Simple.ensureVersion host version logs st).1
  = Throw (Err RangeError
             (Simple.mismatch_message host key (first_three raw) (Some r))).
Proof.
  intros Hreq Hnd Hin Hsat.
  destruct (decide (version = Undefined)) as [->|Hv].
  { cbn in Hreq. apply (f_equal (λ m : object, m !! key)) in Hreq.
    by rewrite lookup_empty, lookup_singleton_eq in Hreq. }
  destruct (simple_run_on_object host version logs st Hv)
    as (l & st' & -> & Ho & _).
  rewrite <-Ho in Hreq.
  rewrite (simple_single_key l logs st' key raw r Hreq Hnd Hin).
  unfold first_three in Hsat.
  unfold Simple.check_key, get_prop, deref, bind, ret. cbn.
  rewrite Hreq, lookup_singleton_eq. cbn. rewrite Hsat. cbn.
  by rewrite Hreq, lookup_singleton_eq.
Qed.
End SingleKey.

(** ** Running versions with more than three components *)

Lemma for_in_pointwise {X} (body body' : X → M unit) (R : X → X → Prop)
    xs ys :
  (∀ x y s, R x y → body x s = body' y s) →
  Forall2 R xs ys →
  ∀ st, for_in xs body st = for_in ys body' st.
Proof.
  intros Hbody. induction 1 as [|x y xs ys Hxy _ IH]; intros st; [done|].
  cbn. unfold bind. rewrite (Hbody x y st Hxy).
  by destruct (body' y st) as [[[]|e] s'].
Qed.

Section Truncation.
Context `{Semver} (host : Host).

Lemma same_first_three_keys vs vs' :
  same_first_three vs vs' → vs.*1 = vs'.*1.
Proof.
  induction 1 as [|e e' vs vs' [He _] _ IH]; [done|].
  cbn. by rewrite He, IH.
Qed.

Lemma simple_check_key_first_three vs' l logs e e' st :
  e.1 = e'.1 → first_three e.2 = first_three e'.2 →
  Simple.check_key host l logs e st
  = Simple.check_key (with_versions host vs') l logs e' st.
Proof.
  intros Hk Hv. unfold Simple.check_key. by rewrite Hk, Hv.
Qed.

Lemma catalog_check_key_first_three vs' l logs importer e e' st :
  e.1 = e'.1 → first_three e.2 = first_three e'.2 →
  Catalog.check_key host l logs importer e st
  = Catalog.check_key (with_versions host vs') l logs importer e' st.
Proof.
  intros Hk Hv. unfold Catalog.check_key. by rewrite Hk, Hv.
Qed.

Lemma empty_message_with_versions vs' o :
  same_first_three (Deno_version host) vs' →
  empty_message (with_versions host vs') o = empty_message host o.
Proof.
  intros Hvs. unfold empty_message. cbn.
  by rewrite (same_first_three_keys _ _ Hvs).
Qed.

Lemma simple_Obj_first_three vs' l logs st :
  same_first_three (Deno_version host) vs' →
  Simple.ensureVersion (with_versions host vs') (Obj l) logs st
  = Simple.ensureVersion host (Obj l) logs st.
Proof.
  intros Hvs. rewrite !simple_ensureVersion_Obj.
  rewrite (empty_message_with_versions _ _ Hvs).
  case_match; [done|]. symmetry.
  eapply for_in_pointwise; [|exact Hvs].
  intros e e' s [Hk Hv]. by apply simple_check_key_first_three.
Qed.

Lemma catalog_Obj_first_three vs' l logs importer st :
  same_first_three (Deno_version host) vs' →
  Catalog.ensureVersion (with_versions host vs') (Obj l) logs importer st
  = Catalog.ensureVersion host (Obj l) logs importer st.
Proof.
  intros Hvs. rewrite !catalog_ensureVersion_Obj.
  rewrite (empty_message_with_versions _ _ Hvs).
  case_match; [done|]. symmetry.
  eapply for_in_pointwise; [|exact Hvs].
  intros e e' s [Hk Hv]. by apply catalog_check_key_first_three.
Qed.

(** X17. Only the first three dot-separated components of a running
    version reach the comparison: replacing the version strings of
    [Deno.version] by strings with the same first three components, as
    [1.9.4.1] by [1.9.4], changes nothing of a call, result, console and
    store, for every requirement, in both variants. *)
Theorem X17_running_version_first_three (versions : list (string * string))
    (version : Arg) (logs : bool) (importer : option ImportMeta)
    (st : State) :
  same_first_three (Deno_version host) versions →
  Simple.ensureVersion (with_versions host versions) version logs st
  = Simple.ensureVersion host version logs st
  ∧ Catalog.ensureVersion (with_versions host versions) version logs
      importer st
    = Catalog.ensureVersion host version logs importer st.
Proof.
  intros Hvs.
  assert (∀ l s,
            Simple.ensureVersion (with_versions host versions) (Obj l) logs s
            = Simple.ensureVersion host (Obj l) logs s) as Hsimple
    by (intros; by apply simple_Obj_first_three).
  assert (∀ l s,
            Catalog.ensureVersion (with_versions host versions) (Obj l) logs
              importer s
            = Catalog.ensureVersion host (Obj l) logs importer s) as Hcatalog
    by (intros; by apply catalog_Obj_first_three).
  split.
  - destruct version as [|s|l]; [done| |apply Hsimple].
    rewrite !simple_ensureVersion_Str. apply Hsimple.
  - destruct version as [|s|l]; [done| |apply Hcatalog].
    rewrite !catalog_ensureVersion_Str. apply Hcatalog.
Qed.
End Truncation.

(** ** The logs flag in the catalog-aware variant *)

Section CatalogLogs.
Context `{Semver} (host : Host).

(** The outcome of a turn of the catalog-aware variant does not depend on
    the logs flag or on the console. *)
Lemma catalog_check_key_logs l importer entry st1 st2 :
  heap st1 = heap st2 →
  (Catalog.check_key host l true importer entry st1).1
  = (Catalog.check_key host l false importer entry st2).1
  ∧ heap (Catalog.check_key host l true importer entry st1).2 = heap st1
  ∧ heap (Catalog.check_key host l false importer entry st2).2 = heap st2.
Proof.
  destruct st1 as [h c1], st2 as [h2 c2]. cbn. intros <-.
  unfold Catalog.check_key, Catalog.maxOriginVersion, semver_minor,
    semver_patch, lib_map, get_prop, deref, lib, bind, ret, throw,
    console_log.
  cbn.
  destruct (default ∅ (h !! l) !! entry.1) as [r|]; cbn; [|done].
  destruct (_ || _); [done|].
  destruct (semver_satisfies _ _) as [[]|]; cbn; [|done..].
  destruct (semver_maxSatisfying _ _) as [best|]; cbn; [|done].
  destruct (semver_parse (default _ best)) as [top|]; cbn; [|done].
  destruct (semver_parse (first_three entry.2)) as [cur|]; cbn; [|done].
  by destruct (negb (sv_minor top =? sv_minor cur)),
    (negb (sv_patch top =? sv_patch cur)).
Qed.

Lemma catalog_for_in_logs l importer xs st1 st2 :
  heap st1 = heap st2 →
  (for_in xs (Catalog.check_key host l true importer) st1).1
  = (for_in xs (Catalog.check_key host l false importer) st2).1.
Proof.
  revert st1 st2. induction xs as [|x xs IH]; intros st1 st2 Hh; [done|].
  cbn. unfold bind.
  destruct (catalog_check_key_logs l importer x st1 st2 Hh) as (Hr & H1 & H2).
  destruct (Catalog.check_key host l true importer x st1) as [r1 st1'],
    (Catalog.check_key host l false importer x st2) as [r2 st2'].
  cbn in Hr, H1, H2. subst r2. destruct r1; [|done].
  apply IH. congruence.
Qed.

(** In the catalog-aware variant a call returns or throws, and throws the
    same error, with either logs flag. *)
Lemma catalog_outcome_without_logs version importer st :
  (Catalog.ensureVersion host version true importer st).1
  = (Catalog.ensureVersion host version false importer st).1.
Proof.
  destruct version as [|s|l]; [done| |].
  - rewrite !catalog_ensureVersion_Str, !catalog_ensureVersion_Obj.
    case_match; [done|]. by apply catalog_for_in_logs.
  - rewrite !catalog_ensureVersion_Obj.
    case_match; [done|]. by apply catalog_for_in_logs.
Qed.
End CatalogLogs.

(** ** The range of the simple variant *)

Section RangeAsWritten.
Context `{Semver}.

(** C4, at the requirement of the module's own documentation. With
    [Deno.version = {deno: '1.9.4', v8: '9.9.115.7', typescript: '4.5.2'}]
    and the requirement [{v8: '9.9.115.7'}], the simple variant cuts the
    running version to [9.9.115] and hands the range to the library as
    written, with its four components. Whenever the library does not
    find [9.9.115] inside [9.9.115.7] the call throws, with nothing
    printed; when the library answers [false], the error is the mismatch
    of [v8@9.9.115] with [9.9.115.7]. *)
Theorem C4_simple_range_as_written (logs : bool) :
  semver_satisfies "9.9.115" "9.9.115.7" ≠ LibOk true →
  first_three "9.9.115.7" = "9.9.115"
  ∧ ∃ e,
      observable
        (Simple.ensureVersion host_194 (Obj 1%positive) logs
           (state_with {[ "v8" := "9.9.115.7" ]}))
      = (Throw e, [])
      ∧ (semver_satisfies "9.9.115" "9.9.115.7" = LibOk false →
         e = Err RangeError
               "v8@9.9.115 not match version 9.9.115.7 required by file:///ensure_version.ts").
Proof.
  intros Hlib. split; [reflexivity|].
  assert (NoDup (Deno_version host_194).*1) as Hnd by compute_done.
  assert (("v8", "9.9.115.7") ∈ Deno_version host_194) as Hin
    by (right; left).
  remember (state_with {[ "v8" := "9.9.115.7" ]}) as st eqn:Hst.
  assert (requirement_of (Obj 1%positive) st = {[ "v8" := "9.9.115.7" ]})
    as Hreq by (subst st; reflexivity).
  cbn in Hreq.
  assert (console st = []) as Hcon by (subst st; reflexivity).
  clear Hst. unfold observable.
  rewrite (simple_single_key host_194 1%positive logs st "v8" "9.9.115.7"
             "9.9.115.7" Hreq Hnd Hin).
  unfold Simple.check_key. cbn [fst snd].
  change (first_three "9.9.115.7") with "9.9.115".
  unfold get_prop, deref, lib, bind, ret, throw. cbn.
  rewrite Hreq, lookup_singleton_eq. cbn.
  destruct (semver_satisfies "9.9.115" "9.9.115.7") as [[]|msg]; cbn.
  - done.
  - rewrite Hreq, lookup_singleton_eq, Hcon.
    eexists. split; [reflexivity|]. intros _. reflexivity.
  - rewrite Hcon. eexists. split; [reflexivity|]. intros [=].
Qed.
End RangeAsWritten.

(** ** Runs on sample hosts, with the reference library *)

#[local] Existing Instance RefSemver.library.

(** C1, at the input of the catalog-aware variant's own documentation.
    With [Deno.version = {deno: '1.9.4', v8: '9.9.115.7', typescript:
    '4.5.2'}] and the requirement [{deno: '>=1.8.0', typescript: '3.2.1'}],
    the running TypeScript does not satisfy its range, and the call returns
    with a minor advisory for [deno]: the turn of [typescript] ends before
    the satisfaction check. *)
Theorem C1_catalog_returns_on_typescript_mismatch :
  semver_satisfies (first_three "4.5.2") "3.2.1" = LibOk false
  ∧ observable
      (Catalog.ensureVersion host_194 (Obj 1%positive) true None
         (state_with {[ "deno" := ">=1.8.0"; "typescript" := "3.2.1" ]}))
    = (Ok tt,
       [Log warn
          ["%cdeno@1.9.4 not match maximum minor >=1.8.0 required, deno minor can be upgraded to 1.26.0";
           "color: yellow"]]).
Proof. split; vm_compute; reflexivity. Qed.

(** In the catalog-aware variant the turns of [typescript] and [v8] return
    at once, whatever the library answers. *)
Lemma catalog_skips_typescript_and_v8 `{Semver} (host : Host) (l : loc)
    (logs : bool) (importer : option ImportMeta) (key raw : string)
    (st : State) :
  key = "typescript" ∨ key = "v8" →
  Catalog.check_key host l logs importer (key, raw) st = (Ok tt, st).
Proof.
  intros Hkey. unfold Catalog.check_key, get_prop, deref, bind, ret. cbn.
  destruct (default ∅ (heap st !! l) !! key); cbn; [|done].
  by destruct Hkey as [->| ->].
Qed.

(** C2, at a failing input of the simple variant. The running engine
    [7.2.502.24] satisfies the requirement [{v8: '7.2.502'}], and the call
    throws the host's [RangeError] for an array of negative length, with
    either logs flag. *)
Theorem C2_simple_throws_on_satisfied_requirement :
  semver_satisfies (first_three "7.2.502.24") "7.2.502" = LibOk true
  ∧ ∀ logs,
      observable
        (Simple.ensureVersion host_502 (Obj 1%positive) logs
           (state_with {[ "v8" := "7.2.502" ]}))
      = (Throw invalid_array_length, []).
Proof. split; [|intros []]; vm_compute; reflexivity. Qed.

(** The catalog-aware variant throws a [TypeError] on a satisfied
    requirement when no release of the catalog satisfies the range. *)
Example catalog_throws_without_release :
  observable
    (Catalog.ensureVersion (mkHost versions_194 "" stringify [])
       (Str ">=1.8.0") true None empty_state)
  = (Throw (Err TypeError "Invalid Version: >=1.8.0"), []).
Proof. vm_compute; reflexivity. Qed.

(** C5, at a failing input of the simple variant. With the running engine
    [7.2.502.24] and the requirement [{v8: '>=7.0.0'}] the call returns,
    with a minor advisory, when logs is true, and throws the host's
    [RangeError] for an array of negative length when logs is false. *)
Theorem C5_simple_logs_flag_changes_outcome :
  observable
    (Simple.ensureVersion host_502 (Obj 1%positive) true
       (state_with {[ "v8" := ">=7.0.0" ]}))
  = (Ok tt,
     [Log warn
        ["%cv8@7.2.502 not match maximum minor >=7.0.0 required by file:///ensure_version.ts, v8 minor can be upgraded";
         "color: yellow"]])
  ∧ observable
      (Simple.ensureVersion host_502 (Obj 1%positive) false
         (state_with {[ "v8" := ">=7.0.0" ]}))
    = (Throw invalid_array_length, []).
Proof. split; vm_compute; reflexivity. Qed.

(** *** The theorems at sample inputs *)

(** The theorem of C3 at the empty mapping held at location [1]. *)
Lemma C3_witness :
  heap (state_with ∅) !! 1%positive = Some (∅ : object)
  ∧ Simple.ensureVersion host_194 Undefined true (state_with ∅)
    = (Throw (Err TypeError undefined_message), state_with ∅)
  ∧ Catalog.ensureVersion host_194 Undefined true None (state_with ∅)
    = (Throw (Err TypeError undefined_message), state_with ∅)
  ∧ Simple.ensureVersion host_194 (Obj 1%positive) true (state_with ∅)
    = (Throw (Err TypeError (empty_message host_194 ∅)), state_with ∅)
  ∧ Catalog.ensureVersion host_194 (Obj 1%positive) true None (state_with ∅)
    = (Throw (Err TypeError (empty_message host_194 ∅)), state_with ∅)
  ∧ Forall (λ entry, includes (empty_message host_194 ∅) entry.1)
      (Deno_version host_194).
Proof.
  split; [reflexivity|].
  apply (C3_undefined_and_empty_rejected host_194 1%positive true None
           (state_with ∅)).
  reflexivity.
Defined.

(** The theorem of C6 at the range [>=1.8.0]. *)
Lemma C6_witness :
  heap (state_with {[ "deno" := ">=1.8.0" ]}) !! 1%positive
  = Some ({[ "deno" := ">=1.8.0" ]} : object)
  ∧ observable
      (Simple.ensureVersion host_194 (Str ">=1.8.0") true
         (state_with {[ "deno" := ">=1.8.0" ]}))
    = observable
        (Simple.ensureVersion host_194 (Obj 1%positive) true
           (state_with {[ "deno" := ">=1.8.0" ]}))
  ∧ observable
      (Catalog.ensureVersion host_194 (Str ">=1.8.0") true None
         (state_with {[ "deno" := ">=1.8.0" ]}))
    = observable
        (Catalog.ensureVersion host_194 (Obj 1%positive) true None
           (state_with {[ "deno" := ">=1.8.0" ]})).
Proof.
  split; [reflexivity|].
  apply (C6_string_is_deno_mapping host_194 ">=1.8.0" true None
           (state_with {[ "deno" := ">=1.8.0" ]}) 1%positive).
  reflexivity.
Defined.

(** The theorem of C4 with the reference library, which rejects the
    range of four components. *)
Lemma C4_witness :
  semver_satisfies "9.9.115" "9.9.115.7" ≠ LibOk true
  ∧ first_three "9.9.115.7" = "9.9.115"
  ∧ ∃ e,
      observable
        (Simple.ensureVersion host_194 (Obj 1%positive) true
           (state_with {[ "v8" := "9.9.115.7" ]}))
      = (Throw e, [])
      ∧ (semver_satisfies "9.9.115" "9.9.115.7" = LibOk false →
         e = Err RangeError
               "v8@9.9.115 not match version 9.9.115.7 required by file:///ensure_version.ts").
Proof.
  assert (semver_satisfies "9.9.115" "9.9.115.7" ≠ LibOk true) as Hlib
    by (vm_compute; discriminate).
  split; [exact Hlib|].
  exact (C4_simple_range_as_written true Hlib).
Defined.

(** The theorem of X17 at a runtime that reports [1.9.4.1], against the
    listing with [1.9.4], and at the requirement [1.9.3]. *)
Lemma X17_witness :
  same_first_three (Deno_version host_1941) versions_194
  ∧ Simple.ensureVersion (with_versions host_1941 versions_194)
      (Str "1.9.3") true empty_state
    = Simple.ensureVersion host_1941 (Str "1.9.3") true empty_state
  ∧ Catalog.ensureVersion (with_versions host_1941 versions_194)
      (Str "1.9.3") true None empty_state
    = Catalog.ensureVersion host_1941 (Str "1.9.3") true None empty_state.
Proof.
  assert (same_first_three (Deno_version host_1941) versions_194) as Hvs.
  { repeat (constructor; [split; reflexivity|]). constructor. }
  split; [exact Hvs|].
  exact (X17_running_version_first_three host_1941 versions_194
           (Str "1.9.3") true None empty_state Hvs).
Defined.

(** The theorem of C8 at the mismatch of [1.9.4] with the requirement
    [1.9.3]. *)
Lemma C8_witness :
  let e :=
    Err RangeError
      "deno@1.9.4 not match version 1.9.3 required by file:///ensure_version.ts"
  in
  err_class e = RangeError
  ∧ (Simple.ensureVersion host_194 (Str "1.9.3") true empty_state).1 = Throw e
  ∧ e ≠ invalid_array_length
  ∧ ∃ key raw range,
      (key, raw) ∈ Deno_version host_194
      ∧ requirement_of (Str "1.9.3") empty_state !! key = Some range
      ∧ includes (err_message e) key
      ∧ includes (err_message e) (first_three raw)
      ∧ includes (err_message e) range
      ∧ ((Catalog.ensureVersion host_194 (Str "1.9.3") true None
            empty_state).1 = Throw e →
         ∀ i, None = Some i → includes (err_message e) (url i)).
Proof.
  intros e.
  assert ((Simple.ensureVersion host_194 (Str "1.9.3") true empty_state).1
          = Throw e) as Hrun by (vm_compute; reflexivity).
  assert (e ≠ invalid_array_length) as Hne by discriminate.
  split; [reflexivity|]. split; [exact Hrun|]. split; [exact Hne|].
  exact (C8_mismatch_message host_194 (Str "1.9.3") true None empty_state e
           eq_refl (or_introl (conj Hrun Hne))).
Defined.

(** The theorem of C9 at a runtime that reports [1.101.0], with the
    requirement [>=1.0.0] and logs off. *)
Lemma C9_witness :
  satisfied host_1_101 (requirement_of (Str ">=1.0.0") empty_state)
  ∧ ("deno", "1.101.0") ∈ Deno_version host_1_101
  ∧ requirement_of (Str ">=1.0.0") empty_state !! "deno" = Some ">=1.0.0"
  ∧ overflows false "1.101.0" ">=1.0.0"
  ∧ (Simple.ensureVersion host_1_101 (Str ">=1.0.0") false empty_state).1
    = Throw invalid_array_length.
Proof.
  assert (key_satisfied "1.101.0" ">=1.0.0") as Hsat.
  { split; [vm_compute; reflexivity|]. exists (mkSemVer 1 101 0).
    split; [vm_compute; reflexivity|].
    split; eexists; vm_compute; reflexivity. }
  assert (satisfied host_1_101 (requirement_of (Str ">=1.0.0") empty_state))
    as Hall.
  { intros key raw r Hin Hr. cbn in Hr.
    apply lookup_singleton_Some in Hr as [<- <-].
    apply elem_of_cons in Hin as [[= ->]|Hin]; [exact Hsat|].
    apply elem_of_cons in Hin as [[=]|Hin].
    apply elem_of_cons in Hin as [[=]|Hin].
    by apply elem_of_nil in Hin. }
  assert (("deno", "1.101.0") ∈ Deno_version host_1_101) as Hin by (by left).
  assert (overflows false "1.101.0" ">=1.0.0") as Hover.
  { exists (mkSemVer 1 101 0). split; [vm_compute; reflexivity|].
    left. cbn. lia. }
  split; [exact Hall|]. split; [exact Hin|]. split; [reflexivity|].
  split; [exact Hover|].
  exact (proj1 (C9_range_negative_length host_1_101 (Str ">=1.0.0") false
                  empty_state "deno" "1.101.0" ">=1.0.0"
                  Hall Hin eq_refl Hover)).
Defined.

(** * Further properties *)

(** ** Loops *)

Lemma for_in_app {X} (body : X → M unit) xs ys st :
  for_in (xs ++ ys) body st
  = match for_in xs body st with
    | (Ok _, st') => for_in ys body st'
    | (Throw e, st') => (Throw e, st')
    end.
Proof.
  revert st. induction xs as [|x xs IH]; intros st; [done|].
  cbn. unfold bind. destruct (body x st) as [[[]|e] s]; [apply IH|done].
Qed.

(** A loop whose turns all return, returns. *)
Lemma for_in_returns {X} (body : X → M unit) (I : State → Prop) xs st :
  (∀ y s, y ∈ xs → I s → ∃ s', body y s = (Ok tt, s') ∧ I s') →
  I st →
  ∃ st', for_in xs body st = (Ok tt, st') ∧ I st'.
Proof.
  revert st. induction xs as [|x xs IH]; intros st Hturn Hst.
  { by exists st. }
  cbn. unfold bind.
  destruct (Hturn x st) as (s & -> & Hs); [by left|done|].
  apply IH; [|done]. intros y s' Hy. apply Hturn. by right.
Qed.

Section Satisfied.
Context `{Semver} (host : Host).

(** The turn of a satisfied key within bounds returns. *)
Lemma simple_turn_passes l logs st key raw r :
  default ∅ (heap st !! l) !! key = Some r →
  key_satisfied raw r →
  in_bounds raw →
  ∃ st', Simple.check_key host l logs (key, raw) st = (Ok tt, st')
         ∧ heap st' = heap st.
Proof.
  intros Hr Hsat Hin.
  destruct (simple_turn_satisfied host l logs st key raw r Hr Hsat)
    as [?|Hthrow]; [done|].
  exfalso.
  destruct Hsat as (Hsat & sv & Hparse & [b1 Hb1] & [b2 Hb2]).
  destruct (Hin sv Hparse) as [Hminor Hpatch].
  revert Hthrow.
  unfold first_three in Hsat, Hparse.
  unfold minor_candidates in Hb1. unfold patch_candidates in Hb2.
  unfold Simple.check_key, Simple.maxMinor, Simple.maxPatch, Simple.range,
    semver_major, semver_minor, semver_patch, get_prop, deref, bind, ret.
  cbn. rewrite Hr, Hsat, Hparse. cbn.
  destruct (Z.ltb_spec (100 - sv_minor sv) 0); [lia|]. cbn.
  rewrite Hb1. cbn.
  destruct (Boolean b1 && logs); cbn; [done|].
  destruct (Z.ltb_spec (500 - sv_patch sv) 0); [lia|]. cbn.
  rewrite Hb2. cbn.
  by destruct (Boolean b2 && logs).
Qed.

(** The turns of the keys in [entries] return when every one of them that
    the requirement has is satisfied within bounds. *)
Lemma simple_turns_pass l logs st entries :
  (∀ key raw r,
     (key, raw) ∈ entries → default ∅ (heap st !! l) !! key = Some r →
     key_satisfied raw r ∧ in_bounds raw) →
  ∃ st', for_in entries (Simple.check_key host l logs) st = (Ok tt, st')
         ∧ heap st' = heap st.
Proof.
  intros Hall.
  apply (for_in_returns _ (λ s, heap s = heap st)); [|done].
  intros [k v] s Hy Hs.
  destruct (default ∅ (heap st !! l) !! k) as [rk|] eqn:Hk.
  - destruct (Hall k v rk Hy Hk) as [Hsat Hin].
    destruct (simple_turn_passes l logs s k v rk) as (s' & Hrun & Hh);
      [by rewrite Hs|done..|].
    exists s'. split; [done|congruence].
  - exists s. split; [|done]. apply simple_check_key_skip. by rewrite Hs.
Qed.

(** X1. The simple variant returns for every non-empty requirement whose
    keys are all satisfied by running versions with a minor of at most 100
    and a patch of at most 500, with either logs flag. *)
Theorem X1_simple_returns_when_satisfied (version : Arg) (logs : bool)
    (st : State) :
  requirement_of version st ≠ ∅ →
  (∀ key raw r,
     (key, raw) ∈ Deno_version host →
     requirement_of version st !! key = Some r →
     key_satisfied raw r ∧ in_bounds raw) →
  (Simple.ensureVersion host version logs st).1 = Ok tt.
Proof.
  intros Hne Hall.
  destruct (decide (version = Undefined)) as [->|Hv]; [done|].
  destruct (simple_run_on_object host version logs st Hv)
    as (l & st' & -> & Ho & _).
  rewrite <-Ho in Hne, Hall. rewrite simple_ensureVersion_Obj.
  destruct (Nat.eqb_spec (size (default ∅ (heap st' !! l))) 0) as [Hsize|_].
  { by apply map_size_empty_iff in Hsize. }
  by destruct (simple_turns_pass l logs st' (Deno_version host) Hall)
    as (s & -> & _).
Qed.

(** X2. The simple variant fails fast on the first violated key in the
    order of [Deno.version]: when the keys before it that the requirement
    has are satisfied within bounds, the call throws the mismatch for that
    key, whatever the later keys are. *)
Theorem X2_simple_first_violation (version : Arg) (logs : bool) (st : State)
    (pre post : list (string * string)) (key raw r : string) :
  Deno_version host = pre ++ (key, raw) :: post →
  (∀ k v rk,
     (k, v) ∈ pre → requirement_of version st !! k = Some rk →
     key_satisfied v rk ∧ in_bounds v) →
  requirement_of version st !! key = Some r →
  semver_satisfies (first_three raw) r = LibOk false →
  (Simple.ensureVersion host version logs st).1
  = Throw (Err RangeError
             (Simple.mismatch_message host key (first_three raw) (Some r))).
Proof.
  intros Hsplit Hpre Hr Hsat.
  destruct (decide (version = Undefined)) as [->|Hv]; [done|].
  destruct (simple_run_on_object host version logs st Hv)
    as (l & st' & -> & Ho & _).
  rewrite <-Ho in Hpre, Hr. rewrite simple_ensureVersion_Obj.
  destruct (Nat.eqb_spec (size (default ∅ (heap st' !! l))) 0) as [Hsize|_].
  { apply map_size_empty_iff in Hsize. by rewrite Hsize in Hr. }
  rewrite Hsplit, for_in_app.
  destruct (simple_turns_pass l logs st' pre Hpre) as (s & -> & Hs).
  cbn. unfold bind.
  unfold first_three in Hsat.
  unfold Simple.check_key, get_prop, deref, bind, ret. cbn.
  rewrite Hs, Hr. cbn. rewrite Hsat. cbn. by rewrite Hs, Hr.
Qed.
End Satisfied.

(** ** The entries of the requirement a call reads *)

Section Entries.
Context `{Semver} (host : Host).

(** The turn of a key depends on the requirement only through its entry
    for that key. *)
Lemma simple_check_key_entry l1 l2 logs entry st1 st2 :
  default ∅ (heap st1 !! l1) !! entry.1
  = default ∅ (heap st2 !! l2) !! entry.1 →
  console st1 = console st2 →
  (Simple.check_key host l1 logs entry st1).1
  = (Simple.check_key host l2 logs entry st2).1
  ∧ console (Simple.check_key host l1 logs entry st1).2
    = console (Simple.check_key host l2 logs entry st2).2
  ∧ heap (Simple.check_key host l1 logs entry st1).2 = heap st1
  ∧ heap (Simple.check_key host l2 logs entry st2).2 = heap st2.
Proof.
  destruct st1 as [h1 c1], st2 as [h2 c2]. cbn. intros Hk <-.
  unfold Simple.check_key, Simple.maxMinor, Simple.maxPatch, Simple.range,
    semver_major, semver_minor, semver_patch, lib_map, get_prop, deref, lib,
    bind, ret, throw, console_log.
  cbn. rewrite Hk.
  destruct (default ∅ (h2 !! l2) !! entry.1) as [r|] eqn:Hr; cbn; [|done].
  destruct (semver_satisfies _ _) as [[]|]; cbn; [|by rewrite ?Hk, ?Hr..].
  destruct (semver_parse _) as [sv|]; cbn; [|done].
  destruct (100 - sv_minor sv <? 0); cbn; [done|].
  destruct (semver_maxSatisfying _ _) as [b1|]; cbn; [|done].
  destruct (Boolean b1 && logs); cbn; [by rewrite ?Hk, ?Hr|].
  destruct (500 - sv_patch sv <? 0); cbn; [done|].
  destruct (semver_maxSatisfying _ _) as [b2|]; cbn; [|done].
  destruct (Boolean b2 && logs); cbn; [by rewrite ?Hk, ?Hr|done].
Qed.

Lemma catalog_check_key_entry l1 l2 logs importer entry st1 st2 :
  (entry.1 ≠ "typescript" ∧ entry.1 ≠ "v8" →
   default ∅ (heap st1 !! l1) !! entry.1
   = default ∅ (heap st2 !! l2) !! entry.1) →
  console st1 = console st2 →
  (Catalog.check_key host l1 logs importer entry st1).1
  = (Catalog.check_key host l2 logs importer entry st2).1
  ∧ console (Catalog.check_key host l1 logs importer entry st1).2
    = console (Catalog.check_key host l2 logs importer entry st2).2
  ∧ heap (Catalog.check_key host l1 logs importer entry st1).2 = heap st1
  ∧ heap (Catalog.check_key host l2 logs importer entry st2).2 = heap st2.
Proof.
  destruct st1 as [h1 c1], st2 as [h2 c2]. cbn. intros Hk <-.
  unfold Catalog.check_key, Catalog.maxOriginVersion, semver_minor,
    semver_patch, lib_map, get_prop, deref, lib, bind, ret, throw,
    console_log.
  cbn.
  destruct (String.eqb_spec entry.1 "typescript") as [Hts|Hts].
  { by destruct (default ∅ (h1 !! l1) !! entry.1),
      (default ∅ (h2 !! l2) !! entry.1). }
  destruct (String.eqb_spec entry.1 "v8") as [Hv8|Hv8].
  { by destruct (default ∅ (h1 !! l1) !! entry.1),
      (default ∅ (h2 !! l2) !! entry.1). }
  specialize (Hk (conj Hts Hv8)). rewrite Hk.
  destruct (default ∅ (h2 !! l2) !! entry.1) as [r|] eqn:Hr; cbn; [|done].
  destruct (semver_satisfies _ _) as [[]|]; cbn; [|by rewrite ?Hk, ?Hr..].
  destruct (semver_maxSatisfying _ _) as [best|]; cbn; [|done].
  destruct (semver_parse (default _ best)) as [top|]; cbn; [|done].
  destruct (semver_parse (first_three entry.2)) as [cur|]; cbn; [|done].
  by destruct (negb (sv_minor top =? sv_minor cur) && logs),
    (negb (sv_patch top =? sv_patch cur) && logs).
Qed.

(** Loops whose turns agree on outcome and console, from states related by
    an invariant the turns keep. *)
Lemma for_in_agree {X} (body1 body2 : X → M unit) (R : State → State → Prop)
    xs :
  (∀ x s1 s2, x ∈ xs → R s1 s2 →
     (body1 x s1).1 = (body2 x s2).1 ∧ R (body1 x s1).2 (body2 x s2).2) →
  (∀ s1 s2, R s1 s2 → console s1 = console s2) →
  ∀ s1 s2, R s1 s2 →
    observable (for_in xs body1 s1) = observable (for_in xs body2 s2).
Proof.
  intros Hbody Hc. induction xs as [|x xs IH]; intros s1 s2 HR.
  { unfold observable. cbn. by rewrite (Hc _ _ HR). }
  cbn. unfold bind.
  destruct (Hbody x s1 s2) as [Hr HR']; [by left|done|].
  destruct (body1 x s1) as [r1 s1'], (body2 x s2) as [r2 s2'].
  cbn in Hr, HR'. subst r2.
  destruct r1 as [[]|e].
  - apply IH; [|done]. intros y t1 t2 Hy. apply Hbody. by right.
  - unfold observable. cbn. by rewrite (Hc _ _ HR').
Qed.
End Entries.

Section EntriesOfRuns.
Context `{Semver} (host : Host).

(** X3. The simple variant reads the requirement only at the keys of
    [Deno.version]: two non-empty requirements with the same entries for
    these keys give the same outcome and the same console output, so an
    entry for any other key is never evaluated. *)
Theorem X3_simple_reads_keys_of_Deno_version (version1 version2 : Arg)
    (logs : bool) (st : State) :
  requirement_of version1 st ≠ ∅ →
  requirement_of version2 st ≠ ∅ →
  agree_on (Deno_version host).*1
    (requirement_of version1 st) (requirement_of version2 st) →
  observable (Simple.ensureVersion host version1 logs st)
  = observable (Simple.ensureVersion host version2 logs st).
Proof.
  intros Hne1 Hne2 Hag.
  destruct (decide (version1 = Undefined)) as [->|Hv1]; [done|].
  destruct (decide (version2 = Undefined)) as [->|Hv2]; [done|].
  destruct (simple_run_on_object host version1 logs st Hv1)
    as (l1 & st1 & -> & Ho1 & Hc1).
  destruct (simple_run_on_object host version2 logs st Hv2)
    as (l2 & st2 & -> & Ho2 & Hc2).
  rewrite <-Ho1, <-Ho2 in Hag. rewrite <-Ho1 in Hne1. rewrite <-Ho2 in Hne2.
  rewrite !simple_ensureVersion_Obj.
  destruct (Nat.eqb_spec (size (default ∅ (heap st1 !! l1))) 0) as [Hs1|_].
  { by apply map_size_empty_iff in Hs1. }
  destruct (Nat.eqb_spec (size (default ∅ (heap st2 !! l2))) 0) as [Hs2|_].
  { by apply map_size_empty_iff in Hs2. }
  apply (for_in_agree _ _
           (λ s1 s2, heap s1 = heap st1 ∧ heap s2 = heap st2
                     ∧ console s1 = console s2)).
  - intros [k v] s1 s2 Hx (Hh1 & Hh2 & Hc).
    destruct (simple_check_key_entry host l1 l2 logs (k, v) s1 s2)
      as (Hr & Hc' & Hh1' & Hh2'); [|done|].
    { rewrite Hh1, Hh2. apply Hag. apply list_elem_of_fmap. by exists (k, v). }
    split; [done|]. split_and!; congruence.
  - by intros s1 s2 (_ & _ & ?).
  - split_and!; [done|done|congruence].
Qed.

(** X4. The catalog-aware variant reads the requirement only at the keys of
    [Deno.version] other than [typescript] and [v8]: two non-empty
    requirements with the same entries for these keys give the same outcome
    and the same console output, whatever they say of [typescript] and
    [v8]. *)
Theorem X4_catalog_ignores_typescript_and_v8 (version1 version2 : Arg)
    (logs : bool) (importer : option ImportMeta) (st : State) :
  requirement_of version1 st ≠ ∅ →
  requirement_of version2 st ≠ ∅ →
  agree_on (catalog_keys host)
    (requirement_of version1 st) (requirement_of version2 st) →
  observable (Catalog.ensureVersion host version1 logs importer st)
  = observable (Catalog.ensureVersion host version2 logs importer st).
Proof.
  intros Hne1 Hne2 Hag.
  destruct (decide (version1 = Undefined)) as [->|Hv1]; [done|].
  destruct (decide (version2 = Undefined)) as [->|Hv2]; [done|].
  destruct (catalog_run_on_object host version1 logs importer st Hv1)
    as (l1 & st1 & -> & Ho1 & Hc1).
  destruct (catalog_run_on_object host version2 logs importer st Hv2)
    as (l2 & st2 & -> & Ho2 & Hc2).
  rewrite <-Ho1, <-Ho2 in Hag. rewrite <-Ho1 in Hne1. rewrite <-Ho2 in Hne2.
  rewrite !catalog_ensureVersion_Obj.
  destruct (Nat.eqb_spec (size (default ∅ (heap st1 !! l1))) 0) as [Hs1|_].
  { by apply map_size_empty_iff in Hs1. }
  destruct (Nat.eqb_spec (size (default ∅ (heap st2 !! l2))) 0) as [Hs2|_].
  { by apply map_size_empty_iff in Hs2. }
  apply (for_in_agree _ _
           (λ s1 s2, heap s1 = heap st1 ∧ heap s2 = heap st2
                     ∧ console s1 = console s2)).
  - intros [k v] s1 s2 Hx (Hh1 & Hh2 & Hc).
    destruct (catalog_check_key_entry host l1 l2 logs importer (k, v) s1 s2)
      as (Hr & Hc' & Hh1' & Hh2'); [|done|].
    { intros Hk. rewrite Hh1, Hh2. apply Hag. unfold catalog_keys.
      apply list_elem_of_filter. split; [done|].
      apply list_elem_of_fmap. by exists (k, v). }
    split; [done|]. split_and!; congruence.
  - by intros s1 s2 (_ & _ & ?).
  - split_and!; [done|done|congruence].
Qed.

(** With logs off a turn leaves the state as it found it. *)
Lemma simple_check_key_quiet l entry st :
  (Simple.check_key host l false entry st).2 = st.
Proof.
  unfold Simple.check_key, Simple.maxMinor, Simple.maxPatch, Simple.range,
    semver_major, semver_minor, semver_patch, lib_map, get_prop, deref, lib,
    bind, ret, throw, console_log.
  cbn.
  destruct (default ∅ (heap st !! l) !! entry.1) as [r|]; cbn; [|done].
  destruct (semver_satisfies _ _) as [[]|]; cbn; [|done..].
  destruct (semver_parse _) as [sv|]; cbn; [|done].
  destruct (100 - sv_minor sv <? 0); cbn; [done|].
  destruct (semver_maxSatisfying _ _) as [b1|]; cbn; [|done].
  rewrite andb_false_r. cbn.
  destruct (500 - sv_patch sv <? 0); cbn; [done|].
  destruct (semver_maxSatisfying _ _) as [b2|]; cbn; [|done].
  by rewrite andb_false_r.
Qed.

Lemma catalog_check_key_quiet l importer entry st :
  (Catalog.check_key host l false importer entry st).2 = st.
Proof.
  unfold Catalog.check_key, Catalog.maxOriginVersion, semver_minor,
    semver_patch, lib_map, get_prop, deref, lib, bind, ret, throw,
    console_log.
  cbn.
  destruct (default ∅ (heap st !! l) !! entry.1) as [r|]; cbn; [|done].
  destruct (_ || _); [done|].
  destruct (semver_satisfies _ _) as [[]|]; cbn; [|done..].
  destruct (semver_maxSatisfying _ _) as [best|]; cbn; [|done].
  destruct (semver_parse (default _ best)) as [top|]; cbn; [|done].
  destruct (semver_parse (first_three entry.2)) as [cur|]; cbn; [|done].
  by rewrite !andb_false_r.
Qed.

Lemma for_in_quiet {X} (body : X → M unit) xs st :
  (∀ x s, (body x s).2 = s) → (for_in xs body st).2 = st.
Proof.
  intros Hbody. induction xs as [|x xs IH]; [done|].
  cbn. unfold bind. specialize (Hbody x st).
  destruct (body x st) as [[[]|e] s]; cbn in Hbody; subst s; [apply IH|done].
Qed.

(** With logs off a call with a mapping leaves the state as it found it. *)
Lemma simple_quiet_Obj l st :
  (Simple.ensureVersion host (Obj l) false st).2 = st.
Proof.
  rewrite simple_ensureVersion_Obj. case_match; [done|].
  apply for_in_quiet. intros. apply simple_check_key_quiet.
Qed.

Lemma catalog_quiet_Obj l importer st :
  (Catalog.ensureVersion host (Obj l) false importer st).2 = st.
Proof.
  rewrite catalog_ensureVersion_Obj. case_match; [done|].
  apply for_in_quiet. intros. apply catalog_check_key_quiet.
Qed.

Lemma catalog_quiet_run version importer st :
  console (Catalog.ensureVersion host version false importer st).2
  = console st.
Proof.
  destruct version as [|s|l]; [done| |by rewrite catalog_quiet_Obj].
  by rewrite catalog_ensureVersion_Str, catalog_quiet_Obj.
Qed.

(** X5. With logs off, neither variant writes to the console, whether the
    call returns or throws; a call with a mapping leaves the whole state as
    it found it. *)
Theorem X5_logs_off_is_silent (version : Arg) (importer : option ImportMeta)
    (st : State) :
  console (Simple.ensureVersion host version false st).2 = console st
  ∧ console (Catalog.ensureVersion host version false importer st).2
    = console st
  ∧ ∀ l, (Simple.ensureVersion host (Obj l) false st).2 = st
         ∧ (Catalog.ensureVersion host (Obj l) false importer st).2 = st.
Proof.
  split_and!.
  - destruct version as [|s|l]; [done| |by rewrite simple_quiet_Obj].
    by rewrite simple_ensureVersion_Str, simple_quiet_Obj.
  - apply catalog_quiet_run.
  - intros l. split; [apply simple_quiet_Obj|apply catalog_quiet_Obj].
Qed.

(** X16. In the catalog-aware variant the logs flag only adds console
    output: a call returns or throws, and throws the same error, with
    either flag, and the console with logs on starts with the console with
    logs off. *)
Theorem X16_catalog_logs_only_add_output (version : Arg)
    (importer : option ImportMeta) (st : State) :
  (Catalog.ensureVersion host version true importer st).1
  = (Catalog.ensureVersion host version false importer st).1
  ∧ ∃ new,
      console (Catalog.ensureVersion host version true importer st).2
      = console (Catalog.ensureVersion host version false importer st).2
        ++ new.
Proof.
  split; [apply catalog_outcome_without_logs|].
  rewrite catalog_quiet_run.
  destruct (decide (version = Undefined)) as [->|Hv].
  { exists []. cbn. by rewrite app_nil_r. }
  destruct (catalog_run_on_object host version true importer st Hv)
    as (l & st' & -> & _ & Hc).
  destruct (catalog_output_Obj host l true importer st')
    as (visited & rest & outs & _ & _ & Hout).
  exists (concat outs). by rewrite Hout, Hc.
Qed.
End EntriesOfRuns.

(** ** The catalog-aware variant on its only checked key *)

Section CatalogDeno.
Context `{Semver} (host : Host).

(** With the keys of its type in [Deno.version], the catalog-aware variant
    is the turn of [deno]. *)
Lemma catalog_deno_only l logs importer st raw :
  deno_keys host →
  NoDup (Deno_version host).*1 →
  ("deno", raw) ∈ Deno_version host →
  default ∅ (heap st !! l) ≠ ∅ →
  Catalog.ensureVersion host (Obj l) logs importer st
  = Catalog.check_key host l logs importer ("deno", raw) st.
Proof.
  intros Hkeys Hnd Hin Hne. rewrite catalog_ensureVersion_Obj.
  destruct (Nat.eqb_spec (size (default ∅ (heap st !! l))) 0) as [Hs|_].
  { by apply map_size_empty_iff in Hs. }
  destruct (other_entries host "deno" raw Hnd Hin)
    as (pre & post & Heq & Hother).
  rewrite Heq.
  apply (for_in_only _ (λ _, True)); [|done..].
  intros [k v] s Hy _. apply catalog_skips_typescript_and_v8.
  assert (k ∈ (Deno_version host).*1) as Hk.
  { apply list_elem_of_fmap. exists (k, v). split; [done|].
    rewrite Heq. apply elem_of_app in Hy as [?|?]; apply elem_of_app;
      [by left|right; by right]. }
  destruct (Hkeys k Hk) as [->|[->| ->]]; [by apply Hother in Hy|auto..].
Qed.

(** A call on a requirement with an entry for [deno] is the turn of
    [deno] on an object with that requirement. *)
Lemma catalog_run_deno version logs importer st raw r :
  deno_keys host →
  NoDup (Deno_version host).*1 →
  ("deno", raw) ∈ Deno_version host →
  requirement_of version st !! "deno" = Some r →
  ∃ l st',
    Catalog.ensureVersion host version logs importer st
    = Catalog.check_key host l logs importer ("deno", raw) st'
    ∧ default ∅ (heap st' !! l) !! "deno" = Some r
    ∧ console st' = console st.
Proof.
  intros Hkeys Hnd Hin Hr.
  destruct (decide (version = Undefined)) as [->|Hv]; [done|].
  destruct (catalog_run_on_object host version logs importer st Hv)
    as (l & st' & -> & Ho & Hc).
  exists l, st'. rewrite <-Ho in Hr. split_and!; [|done..].
  apply catalog_deno_only; [done..|]. intros Hempty. by rewrite Hempty in Hr.
Qed.

(** X6. In the catalog-aware variant a requirement with an entry for
    [deno] throws the mismatch for [deno] when the library finds the
    truncated running version outside the first three dot-separated
    segments of the required range; the message shows the range as the
    caller wrote it. *)
Theorem X6_catalog_deno_mismatch (version : Arg) (logs : bool)
    (importer : option ImportMeta) (st : State) (raw r : string) :
  deno_keys host →
  NoDup (Deno_version host).*1 →
  ("deno", raw) ∈ Deno_version host →
  requirement_of version st !! "deno" = Some r →
  semver_satisfies (first_three raw) (first_three r) = LibOk false →
  (Catalog.ensureVersion host version logs importer st).1
  = Throw (Err RangeError
             (Catalog.mismatch_message importer "deno" (first_three raw)
                (Some r))).
Proof.
  intros Hkeys Hnd Hin Hr Hsat.
  destruct (catalog_run_deno version logs importer st raw r)
    as (l & st' & -> & Hr' & _); [done..|].
  unfold Catalog.check_key, get_prop, deref, bind, ret.
  unfold first_three in *. cbn.
  rewrite Hr'. cbn. rewrite Hsat. cbn. by rewrite Hr'.
Qed.


(** X8. In the catalog-aware variant a satisfied requirement for [deno]
    returns when the catalog has a release in the range: it writes the
    minor advisory when the maximum such release has another minor than the
    running version and logs is on, else the patch advisory when it has
    another patch and logs is on, else nothing. *)
Theorem X8_catalog_deno_satisfied (version : Arg) (logs : bool)
    (importer : option ImportMeta) (st : State) (raw r maxOrigin : string)
    (top cur : SemVer) :
  deno_keys host →
  NoDup (Deno_version host).*1 →
  ("deno", raw) ∈ Deno_version host →
  requirement_of version st !! "deno" = Some r →
  semver_satisfies (first_three raw) (first_three r) = LibOk true →
  semver_maxSatisfying (catalog_strings host) (first_three r)
  = LibOk (Some maxOrigin) →
  semver_parse maxOrigin = LibOk top →
  semver_parse (first_three raw) = LibOk cur →
  observable (Catalog.ensureVersion host version logs importer st)
  = (Ok tt,
     console st
     ++ catalog_advisory importer logs (first_three raw) (first_three r)
          maxOrigin top cur).
Proof.
  intros Hkeys Hnd Hin Hr Hsat Hmax Htop Hcur.
  destruct (catalog_run_deno version logs importer st raw r)
    as (l & st' & -> & Hr' & Hc); [done..|].
  unfold catalog_strings in Hmax.
  unfold observable, catalog_advisory, Catalog.check_key,
    Catalog.maxOriginVersion, semver_minor, semver_patch, lib_map, get_prop,
    deref, bind, ret.
  unfold first_three in *. cbn.
  rewrite Hr'. cbn. rewrite Hsat. cbn. rewrite Hmax. cbn.
  rewrite Htop, Hcur. cbn.
  destruct (negb (sv_minor top =? sv_minor cur) && logs); cbn.
  { by rewrite Hc. }
  rewrite ?Htop, ?Hcur. cbn.
  destruct (negb (sv_patch top =? sv_patch cur) && logs); cbn;
    by rewrite Hc, ?app_nil_r.
Qed.

(** X9. In the catalog-aware variant a non-empty requirement without an
    entry for [deno] returns and writes nothing, whatever it requires of
    [typescript] and [v8] and whatever the library answers. *)
Theorem X9_catalog_without_deno (version : Arg) (logs : bool)
    (importer : option ImportMeta) (st : State) :
  deno_keys host →
  requirement_of version st ≠ ∅ →
  requirement_of version st !! "deno" = None →
  observable (Catalog.ensureVersion host version logs importer st)
  = (Ok tt, console st).
Proof.
  intros Hkeys Hne Hnone.
  destruct (decide (version = Undefined)) as [->|Hv]; [done|].
  destruct (catalog_run_on_object host version logs importer st Hv)
    as (l & st' & -> & Ho & Hc).
  rewrite <-Ho in Hne, Hnone. rewrite catalog_ensureVersion_Obj.
  destruct (Nat.eqb_spec (size (default ∅ (heap st' !! l))) 0) as [Hs|_].
  { by apply map_size_empty_iff in Hs. }
  rewrite (for_in_skipped _ (λ s, heap s = heap st')); [|..|done].
  { unfold observable. cbn. by rewrite Hc. }
  intros [k v] s Hy Hs.
  destruct (Hkeys k) as [->|Hk].
  { apply list_elem_of_fmap. by exists (k, v). }
  - unfold Catalog.check_key, get_prop, deref, bind, ret. cbn.
    by rewrite Hs, Hnone.
  - apply catalog_skips_typescript_and_v8. tauto.
Qed.
End CatalogDeno.

(** ** The candidates of the advisory helpers *)

Lemma range_values_lookup min max (i : nat) :
  (i < Z.to_nat (max - min))%nat →
  Simple.range_values min max !! i = Some (min + 1 + Z.of_nat i).
Proof.
  intros Hi. unfold Simple.range_values.
  rewrite list_lookup_fmap, lookup_seq_lt by done. cbn. f_equal. lia.
Qed.

Lemma elem_of_range_values min max x :
  x ∈ Simple.range_values min max ↔ min < x ≤ max.
Proof.
  unfold Simple.range_values. rewrite list_elem_of_fmap. split.
  - intros (i & -> & Hi). apply elem_of_seq in Hi. lia.
  - intros Hx. exists (Z.to_nat (x - min - 1)). split; [lia|].
    apply elem_of_seq. lia.
Qed.



Section Candidates.
Context `{Semver}.

(** X11. For a running version the library parses, with its minor from 0
    to 100 and its patch from 0 to 500, [maxMinor] returns what the
    library's [maxSatisfying] answers, as a boolean, about a list of
    versions that holds [major.m.0] for exactly the [m] above the running
    minor and at most 100, and [maxPatch] about a list that holds
    [major.minor.p] for exactly the [p] above the running patch and at
    most 500; a [TypeError] of the library is thrown on. Neither changes
    the store or the console. *)
Theorem X11_candidates_above_running_version (originVersion
    requiredVersion : string) (sv : SemVer) (st : State) :
  semver_parse originVersion = LibOk sv →
  0 ≤ sv_minor sv ≤ 100 →
  0 ≤ sv_patch sv ≤ 500 →
  ∃ minors patches,
    Simple.maxMinor originVersion requiredVersion st
    = lib (lib_map Boolean (semver_maxSatisfying minors requiredVersion)) st
    ∧ Simple.maxPatch originVersion requiredVersion st
      = lib (lib_map Boolean (semver_maxSatisfying patches requiredVersion))
          st
    ∧ (∀ v, v ∈ minors ↔
            ∃ m, sv_minor sv < m ≤ 100
                 ∧ v = version_string (sv_major sv) m 0)
    ∧ (∀ v, v ∈ patches ↔
            ∃ p, sv_patch sv < p ≤ 500
                 ∧ v = version_string (sv_major sv) (sv_minor sv) p).
Proof.
  intros Hparse Hminor Hpatch.
  exists (minor_candidates sv), (patch_candidates sv). split_and!.
  - unfold Simple.maxMinor, Simple.range, semver_major, semver_minor,
      lib_map, lib, bind, ret, throw.
    rewrite Hparse.
    destruct (Z.ltb_spec (100 - sv_minor sv) 0) as [|_]; [lia|].
    unfold minor_candidates.
    by destruct (semver_maxSatisfying _ _).
  - unfold Simple.maxPatch, Simple.range, semver_major, semver_minor,
      semver_patch, lib_map, lib, bind, ret, throw.
    rewrite Hparse.
    destruct (Z.ltb_spec (500 - sv_patch sv) 0) as [|_]; [lia|].
    unfold patch_candidates.
    by destruct (semver_maxSatisfying _ _).
  - intros v. unfold minor_candidates. rewrite list_elem_of_fmap. split.
    + intros (m & -> & Hm). apply elem_of_range_values in Hm. eauto.
    + intros (m & Hm & ->). exists m. by rewrite elem_of_range_values.
  - intros v. unfold patch_candidates. rewrite list_elem_of_fmap. split.
    + intros (q & -> & Hq). apply elem_of_range_values in Hq. eauto.
    + intros (q & Hq & ->). exists q. by rewrite elem_of_range_values.
Qed.
End Candidates.

(** ** [split], [slice] and [join] *)

Section FirstThree.
Implicit Types (s w : string) (l : list string).

Lemma split_cons sep s : ∃ w l, split sep s = w :: l.
Proof.
  destruct s as [|c s]; cbn; [by eexists _, _|].
  destruct (Stdlib.Strings.Ascii.eqb c sep); [by eexists _, _|].
  destruct (split sep s); by eexists _, _.
Qed.

Lemma join_cons_char sep c w l :
  join sep (String c w :: l) = String c (join sep (w :: l)).
Proof. by destruct l. Qed.

(** [s.split(c).join(c)] is [s]. *)
Lemma join_split c s : join (String c "") (split c s) = s.
Proof.
  induction s as [|a s IH]; [done|]. cbn.
  destruct (Stdlib.Strings.Ascii.eqb_spec a c) as [->|Hne].
  - destruct (split_cons c s) as (w & l & Hs). rewrite Hs in IH |- *.
    change (String c (join (String c "") (w :: l)) = String c s).
    by rewrite IH.
  - destruct (split_cons c s) as (w & l & Hs). rewrite Hs in IH |- *.
    by rewrite join_cons_char, IH.
Qed.

(** The components of a split have no separator. *)
Lemma split_free c s : Forall (λ w, free c w = true) (split c s).
Proof.
  induction s as [|a s IH]; cbn; [by repeat constructor|].
  destruct (Stdlib.Strings.Ascii.eqb_spec a c) as [->|Hne].
  - by constructor.
  - destruct (split_cons c s) as (w & l & Hs). rewrite Hs in IH |- *.
    apply Forall_cons in IH as [Hw Hl]. constructor; [|done]. cbn.
    rewrite Hw. by destruct (Stdlib.Strings.Ascii.eqb_spec a c).
Qed.

Lemma split_free_app c w s :
  free c w = true → split c (w +:+ String c s) = w :: split c s.
Proof.
  induction w as [|a w IH]; cbn.
  - intros _. change ("" +:+ String c s) with (String c s). cbn.
    by rewrite Ascii.eqb_refl.
  - intros [Ha Hw]%andb_true_iff. rewrite app_cons. cbn.
    apply negb_true_iff in Ha. rewrite Ha, IH; done.
Qed.

Lemma split_free_self c w : free c w = true → split c w = [w].
Proof.
  induction w as [|a w IH]; cbn; [done|].
  intros [Ha Hw]%andb_true_iff. apply negb_true_iff in Ha.
  by rewrite Ha, IH.
Qed.

(** [l.join(c).split(c)] is [l] when no component has a separator. *)
Lemma split_join c l :
  l ≠ [] → Forall (λ w, free c w = true) l →
  split c (join (String c "") l) = l.
Proof.
  induction l as [|w [|w' l] IH]; intros Hne Hall; [done| |].
  - apply Forall_cons in Hall as [Hw _]. by apply split_free_self.
  - apply Forall_cons in Hall as [Hw Hall].
    change (join (String c "") (w :: w' :: l))
      with (w +:+ String c (join (String c "") (w' :: l))).
    rewrite split_free_app by done. by rewrite IH.
Qed.

Lemma join_take_prefix sep n l :
  ∃ rest, join sep l = join sep (take n l) +:+ rest.
Proof.
  revert n. induction l as [|w l IH]; intros [|n]; cbn [take].
  - by exists "".
  - by exists "".
  - by eexists.
  - destruct l as [|w' l].
    { exists "". by rewrite take_nil, app_nil_end. }
    destruct (IH n) as [rest Hrest]. destruct n as [|n].
    + cbn [take]. by exists (sep +:+ join sep (w' :: l)).
    + exists rest.
      change (join sep (w :: w' :: l)) with (w +:+ sep +:+ join sep (w' :: l)).
      cbn [take] in Hrest |- *.
      change (join sep (w :: w' :: take n l))
        with (w +:+ sep +:+ join sep (w' :: take n l)).
      by rewrite Hrest, !app_assoc_string.
Qed.

(** X12. The truncated version is the start of the version the runtime
    reports, and is all of it when it has at most three dot-separated
    components: nothing but a fourth and later components is ever cut. *)
Theorem X12_first_three_prefix (s : string) :
  (∃ rest, s = first_three s +:+ rest)
  ∧ ((length (split "." s) ≤ 3)%nat → first_three s = s).
Proof.
  unfold first_three. split.
  - destruct (join_take_prefix "." 3 (split "." s)) as [rest Hrest].
    exists rest. by rewrite <-Hrest, join_split.
  - intros Hlen. by rewrite take_ge, join_split.
Qed.

(** X13. The truncated version has the first three dot-separated
    components of the reported one, so at most three of them, and
    truncating it again changes nothing. *)
Theorem X13_first_three_components (s : string) :
  split "." (first_three s) = take 3 (split "." s)
  ∧ (length (split "." (first_three s)) ≤ 3)%nat
  ∧ first_three (first_three s) = first_three s.
Proof.
  assert (split "." (first_three s) = take 3 (split "." s)) as Hsplit.
  { unfold first_three. apply split_join.
    - destruct (split_cons "." s) as (w & l & ->). done.
    - apply Forall_take, split_free. }
  split_and!; [done| |].
  - rewrite Hsplit, length_take. lia.
  - unfold first_three at 1. rewrite Hsplit, take_take. done.
Qed.
End FirstThree.

(** ** The release catalog *)

Section Numerals.
Import Releases.

Lemma length_app_string (s t : string) :
  String.length (s +:+ t) = (String.length s + String.length t)%nat.
Proof.
  induction s as [|a s IH]; [done|]. rewrite app_cons. cbn. by rewrite IH.
Qed.

Lemma digit_pretty_N_char (d : N) :
  (d < 10)%N → digit (pretty_N_char d) = Some (Z.of_N d).
Proof.
  intros Hd.
  assert (d = 0 ∨ d = 1 ∨ d = 2 ∨ d = 3 ∨ d = 4 ∨ d = 5 ∨ d = 6 ∨ d = 7
          ∨ d = 8 ∨ d = 9)%N as Hcases by lia.
  by repeat destruct Hcases as [->|Hcases]; [..|subst d].
Qed.

Lemma digit_range c d : digit c = Some d → 0 ≤ d ≤ 9.
Proof.
  unfold digit. destruct (Z.leb_spec 48 (Z.of_nat (nat_of_ascii c))),
    (Z.leb_spec (Z.of_nat (nat_of_ascii c)) 57); cbn; intros [= <-]; lia.
Qed.

Lemma pretty_N_go_app x (s t : string) :
  pretty_N_go x s +:+ t = pretty_N_go x (s +:+ t).
Proof.
  revert s. induction (N.lt_wf_0 x) as [x _ IH]; intros s.
  destruct (decide (x = 0%N)) as [->|Hx]; [by rewrite !pretty_N_go_0|].
  rewrite (pretty_N_go_step x s), (pretty_N_go_step x (s +:+ t)) by lia.
  rewrite IH; [reflexivity|]. apply N.div_lt; lia.
Qed.

Lemma digits_pretty_N_go x (s : string) :
  digits (pretty_N_go x s) = (pretty_N_go x (digits s).1, (digits s).2).
Proof.
  revert s. induction (N.lt_wf_0 x) as [x _ IH]; intros s.
  destruct (decide (x = 0%N)) as [->|Hx].
  { rewrite !pretty_N_go_0. by destruct (digits s). }
  rewrite (pretty_N_go_step x s), (pretty_N_go_step x (digits s).1) by lia.
  rewrite IH by (apply N.div_lt; lia). cbn.
  rewrite digit_pretty_N_char; [done|]. by apply N.mod_lt.
Qed.

Lemma parseInt_pretty_N_go x (s : string) :
  parseInt (pretty_N_go x s) 0 = parseInt s (Z.of_N x).
Proof.
  revert s. induction (N.lt_wf_0 x) as [x _ IH]; intros s.
  destruct (decide (x = 0%N)) as [->|Hx]; [by rewrite pretty_N_go_0|].
  rewrite pretty_N_go_step by lia.
  rewrite IH by (apply N.div_lt; lia). cbn.
  rewrite digit_pretty_N_char by (by apply N.mod_lt).
  f_equal. rewrite N2Z.inj_div, N2Z.inj_mod.
  pose proof (Z.div_mod (Z.of_N x) 10). lia.
Qed.

Lemma digits_no_leading_digit (t : string) :
  no_leading_digit t → digits t = ("", t).
Proof. destruct t as [|c t]; cbn; [done|]. by intros ->. Qed.

(** The decimal numeral of a number that is not negative is a non-empty
    string of digits that [parseInt] reads back. *)
Lemma numeral (z : Z) (t : string) :
  0 ≤ z → no_leading_digit t →
  pretty z ≠ ""
  ∧ digits (pretty z +:+ t) = (pretty z, t)
  ∧ parseInt (pretty z) 0 = z.
Proof.
  intros Hz Ht. destruct z as [|p|p]; [| |lia].
  - change (pretty 0) with "0". split_and!; [done| |done].
    change ("0" +:+ t) with (String "0" t). cbn.
    by rewrite (digits_no_leading_digit t).
  - change (pretty (Z.pos p)) with (pretty_N_go (N.pos p) "").
    split_and!.
    + rewrite pretty_N_go_step by lia.
      pose proof (pretty_N_go_app (N.pos p `div` 10) ""
                    (String (pretty_N_char (N.pos p `mod` 10)) "")) as Happ.
      change ("" +:+ String ?c "") with (String c "") in Happ.
      rewrite <-Happ. by destruct (pretty_N_go _ "").
    + rewrite pretty_N_go_app, digits_pretty_N_go.
      change ("" +:+ t) with t. by rewrite (digits_no_leading_digit t).
    + by rewrite parseInt_pretty_N_go.
Qed.

Lemma after_app (p s : string) : after p (p +:+ s) = Some s.
Proof.
  induction p as [|a p IH]; [done|]. rewrite app_cons. cbn.
  by rewrite Ascii.eqb_refl.
Qed.

(** A heading of the notes is matched as a whole where it stands. *)
Lemma heading_heading_text (v : SemVer) (t : string) :
  safe_version v → no_leading_digit t →
  heading (heading_text v +:+ t)
  = Some (v, String.length (heading_text v)).
Proof.
  destruct v as [a b c]. intros ([Ha _] & [Hb _] & [Hc _]) Ht.
  cbn [sv_major sv_minor sv_patch] in *.
  unfold heading_text, version_string. cbn [sv_major sv_minor sv_patch].
  rewrite !app_assoc_string.
  destruct (numeral a ("." +:+ pretty b +:+ "." +:+ pretty c +:+ t))
    as (Ha1 & Ha2 & Ha3); [done..|].
  destruct (numeral b ("." +:+ pretty c +:+ t)) as (Hb1 & Hb2 & Hb3);
    [done..|].
  destruct (numeral c t) as (Hc1 & Hc2 & Hc3); [done..|].
  unfold heading. rewrite after_app. cbn [mbind option_bind].
  rewrite Ha2. cbn [fst snd]. destruct (decide (pretty a = "")); [done|].
  rewrite after_app. cbn [mbind option_bind].
  rewrite Hb2. cbn [fst snd]. destruct (decide (pretty b = "")); [done|].
  rewrite after_app. cbn [mbind option_bind].
  rewrite Hc2. cbn [fst snd]. destruct (decide (pretty c = "")); [done|].
  rewrite Ha3, Hb3, Hc3. do 2 f_equal.
  rewrite !length_app_string. cbn [String.length]. lia.
Qed.

Lemma matchAll_skip (u t : string) :
  matchAll (String.length u) (u +:+ t) = matchAll 0 t.
Proof. induction u as [|a u IH]; [done|]. by rewrite app_cons. Qed.

Lemma heading_free (c : ascii) (s : string) :
  Stdlib.Strings.Ascii.eqb c "#" = false → heading (String c s) = None.
Proof.
  intros Hc. unfold heading. cbn [after].
  rewrite Ascii.eqb_sym in Hc. by rewrite Hc.
Qed.

(** The search passes over a text without [#]. *)
Lemma matchAll_free (u t : string) :
  free "#" u = true → matchAll 0 (u +:+ t) = matchAll 0 t.
Proof.
  induction u as [|a u IH]; [done|]. cbn.
  intros [Ha Hu]%andb_true_iff. apply negb_true_iff in Ha.
  rewrite app_cons. cbn [matchAll].
  rewrite <-app_cons, app_cons, heading_free by done. auto.
Qed.

Lemma matchAll_heading_text (v : SemVer) (t : string) :
  safe_version v → no_leading_digit t →
  matchAll 0 (heading_text v +:+ t) = v :: matchAll 0 t.
Proof.
  intros Hv Ht. pose proof (heading_heading_text v t Hv Ht) as Hh.
  unfold heading_text in *.
  change ("### " +:+ ?x) with (String "#" ("## " +:+ x)) in *.
  rewrite app_cons in *. cbn [matchAll]. rewrite Hh. cbn [String.length pred].
  by rewrite matchAll_skip.
Qed.

Lemma notes_no_leading_digit entries : no_leading_digit (notes entries).
Proof. by destruct entries as [|[v body] rest]. Qed.

Lemma plain_no_leading_digit body (t : string) :
  plain body → no_leading_digit t → no_leading_digit (body +:+ t).
Proof. intros [_ Hb] Ht. by destruct body. Qed.

(** X14. The catalog read from release notes is the list of their
    versions, in order: for notes made of a heading [### a.b.c] for each
    version, each followed by text without [#] that does not start with a
    digit, and placed after any text without [#]. *)
Theorem X14_catalog_of_notes (preamble : string)
    (entries : list (SemVer * string)) :
  free "#" preamble = true →
  Forall (λ e, safe_version e.1 ∧ plain e.2) entries →
  denoVersions (preamble +:+ notes entries) = entries.*1.
Proof.
  intros Hpre Hall. unfold denoVersions. rewrite matchAll_free by done.
  clear preamble Hpre.
  induction Hall as [|[v body] rest [Hv Hbody] _ IH]; [done|].
  cbn [notes fmap list_fmap fst]. cbn in Hv, Hbody.
  rewrite matchAll_heading_text;
    [|done|by apply plain_no_leading_digit, notes_no_leading_digit].
  f_equal. destruct Hbody as [Hfree _]. by rewrite matchAll_free.
Qed.
End Numerals.

Section CatalogEntries.
Import Releases.

Lemma after_Some (p s r : string) : after p s = Some r → s = p +:+ r.
Proof.
  revert s. induction p as [|a p IH]; intros [|b s]; cbn; try done.
  - by intros [= <-].
  - by intros [= <-].
  - destruct (Stdlib.Strings.Ascii.eqb_spec a b) as [->|]; [|done].
    intros Hs. by rewrite app_cons, <-(IH s Hs).
Qed.

Lemma digits_app (s : string) : s = (digits s).1 +:+ (digits s).2.
Proof.
  induction s as [|c s IH]; [done|]. cbn.
  destruct (digit c); cbn; [|done]. by rewrite app_cons, <-IH.
Qed.

Lemma digits_digits (s : string) : digits (digits s).1 = ((digits s).1, "").
Proof.
  induction s as [|c s IH]; [done|]. cbn.
  destruct (digit c) eqn:Hc; cbn; [|done]. by rewrite Hc, IH.
Qed.

Lemma parseInt_nonneg (s : string) (acc : Z) : 0 ≤ acc → 0 ≤ parseInt s acc.
Proof.
  revert acc. induction s as [|c s IH]; intros acc Hacc; cbn; [done|].
  destruct (digit c) as [d|] eqn:Hc; [|done].
  apply IH. apply digit_range in Hc. lia.
Qed.

Lemma numeral_of_digits (s : string) :
  (digits s).1 ≠ "" → numeral_of (digits s).1 (parseInt (digits s).1 0).
Proof. intros Hne. split_and!; [done|apply digits_digits|done]. Qed.

(** A match is a heading of three numerals at the start of the text. *)
Lemma heading_Some (s : string) (v : SemVer) (n : nat) :
  heading s = Some (v, n) →
  ∃ p1 p2 p3 post,
    s = "### " +:+ p1 +:+ "." +:+ p2 +:+ "." +:+ p3 +:+ post
    ∧ numeral_of p1 (sv_major v)
    ∧ numeral_of p2 (sv_minor v)
    ∧ numeral_of p3 (sv_patch v).
Proof.
  unfold heading. intros Hh.
  destruct (after "### " s) as [r1|] eqn:H1; [|done].
  cbn [mbind option_bind] in Hh.
  destruct (decide ((digits r1).1 = "")) as [|Hp1]; [done|].
  destruct (after "." (digits r1).2) as [r2|] eqn:H2; [|done].
  cbn [mbind option_bind] in Hh.
  destruct (decide ((digits r2).1 = "")) as [|Hp2]; [done|].
  destruct (after "." (digits r2).2) as [r3|] eqn:H3; [|done].
  cbn [mbind option_bind] in Hh.
  destruct (decide ((digits r3).1 = "")) as [|Hp3]; [done|].
  injection Hh as <- <-.
  exists (digits r1).1, (digits r2).1, (digits r3).1, (digits r3).2.
  split; [|split_and!; by apply numeral_of_digits].
  apply after_Some in H1, H2, H3.
  rewrite <-digits_app, <-H3, <-digits_app, <-H2, <-digits_app. done.
Qed.

Lemma matchAll_sound (skip : nat) (s : string) (v : SemVer) :
  v ∈ matchAll skip s → ∃ pre t n, s = pre +:+ t ∧ heading t = Some (v, n).
Proof.
  revert skip. induction s as [|c s IH]; intros skip Hv; cbn [matchAll] in Hv.
  { by apply elem_of_nil in Hv. }
  assert (∀ k, v ∈ matchAll k s →
               ∃ pre t n, String c s = pre +:+ t ∧ heading t = Some (v, n))
    as Hrest.
  { intros k Hk. destruct (IH k Hk) as (pre & t & n & -> & Ht).
    by exists (String c pre), t, n. }
  destruct skip as [|k]; [|by eapply Hrest].
  destruct (heading (String c s)) as [[v' n]|] eqn:Hh; [|by eapply Hrest].
  apply elem_of_cons in Hv as [->|Hv]; [|by eapply Hrest].
  by exists "", (String c s), n.
Qed.

(** X15. Every version of the catalog with its components below [2^53],
    where [parseInt] is exact, stands in the text as a heading [### a.b.c]
    of three non-empty strings of digits, which [parseInt] reads as its
    components; so no component is negative. *)
Theorem X15_catalog_entries_are_headings (text : string) (v : SemVer) :
  v ∈ denoVersions text →
  sv_major v < 2 ^ 53 → sv_minor v < 2 ^ 53 → sv_patch v < 2 ^ 53 →
  (∃ pre p1 p2 p3 post,
     text = pre +:+ "### " +:+ p1 +:+ "." +:+ p2 +:+ "." +:+ p3 +:+ post
     ∧ numeral_of p1 (sv_major v)
     ∧ numeral_of p2 (sv_minor v)
     ∧ numeral_of p3 (sv_patch v))
  ∧ safe_version v.
Proof.
  intros Hv Hmajor Hminor Hpatch.
  apply matchAll_sound in Hv as (pre & t & n & -> & Hh).
  apply heading_Some in Hh
    as (p1 & p2 & p3 & post & -> & H1 & H2 & H3).
  split; [by exists pre, p1, p2, p3, post|].
  destruct H1 as (_ & _ & H1), H2 as (_ & _ & H2), H3 as (_ & _ & H3).
  pose proof (parseInt_nonneg p1 0 ltac:(done)).
  pose proof (parseInt_nonneg p2 0 ltac:(done)).
  pose proof (parseInt_nonneg p3 0 ltac:(done)).
  unfold safe_version. lia.
Qed.
End CatalogEntries.

(** ** The further theorems at sample inputs *)

Import Inputs.

(** Goes through the entries of a listed [Deno.version]. *)
Ltac each_entry H :=
  repeat (apply elem_of_cons in H as [[= -> ->]|H]);
  [..|by apply elem_of_nil in H].

Lemma host_194_deno_keys : deno_keys host_194.
Proof.
  intros k Hk. cbn in Hk.
  repeat (apply elem_of_cons in Hk as [->|Hk]); [auto..|].
  by apply elem_of_nil in Hk.
Qed.

Lemma sample_key_satisfied raw r sv b1 b2 :
  semver_satisfies (first_three raw) r = LibOk true →
  semver_parse (first_three raw) = LibOk sv →
  semver_maxSatisfying (minor_candidates sv) r = LibOk b1 →
  semver_maxSatisfying (patch_candidates sv) r = LibOk b2 →
  key_satisfied raw r.
Proof. intros. split; [done|]. exists sv. eauto. Qed.

Lemma sample_in_bounds raw sv :
  semver_parse (first_three raw) = LibOk sv →
  sv_minor sv ≤ 100 → sv_patch sv ≤ 500 →
  in_bounds raw.
Proof. intros Hp ?? sv' Hp'. rewrite Hp in Hp'. by injection Hp' as <-. Qed.

(** The theorem X1 at the requirement [1.9.4] of the running [1.9.4]. *)
Lemma X1_witness :
  requirement_of (Str "1.9.4") empty_state ≠ ∅
  ∧ (Simple.ensureVersion host_194 (Str "1.9.4") true empty_state).1 = Ok tt.
Proof.
  assert (requirement_of (Str "1.9.4") empty_state ≠ ∅) as Hne.
  { intros Hempty. apply (f_equal (λ m : object, m !! "deno")) in Hempty.
    vm_compute in Hempty. discriminate. }
  split; [exact Hne|].
  apply (X1_simple_returns_when_satisfied host_194 (Str "1.9.4") true
           empty_state Hne).
  intros key raw r Hin Hr. cbn in Hin. each_entry Hin;
    vm_compute in Hr; [|discriminate..].
  injection Hr as <-. split.
  - eapply (sample_key_satisfied _ _ (mkSemVer 1 9 4));
      vm_compute; reflexivity.
  - apply (sample_in_bounds _ (mkSemVer 1 9 4));
      [vm_compute; reflexivity|cbn; lia..].
Defined.

(** The theorem X2 at the requirement [{deno: '>=1.8.0', v8: '8.0.0'}]: the
    mismatch of [v8] after the satisfied [deno]. *)
Lemma X2_witness :
  Deno_version host_194
  = [("deno", "1.9.4")] ++ ("v8", "9.9.115.7") :: [("typescript", "4.5.2")]
  ∧ requirement_of (Obj 1%positive) (state_with deno_and_v8) !! "v8"
    = Some "8.0.0"
  ∧ semver_satisfies (first_three "9.9.115.7") "8.0.0" = LibOk false
  ∧ (Simple.ensureVersion host_194 (Obj 1%positive) true
       (state_with deno_and_v8)).1
    = Throw (Err RangeError
               (Simple.mismatch_message host_194 "v8"
                  (first_three "9.9.115.7") (Some "8.0.0"))).
Proof.
  assert (semver_satisfies (first_three "9.9.115.7") "8.0.0" = LibOk false)
    as Hsat by (vm_compute; reflexivity).
  split; [reflexivity|]. split; [reflexivity|]. split; [exact Hsat|].
  apply (X2_simple_first_violation host_194 (Obj 1%positive) true
           (state_with deno_and_v8) [("deno", "1.9.4")]
           [("typescript", "4.5.2")] "v8" "9.9.115.7" "8.0.0");
    [reflexivity| |reflexivity|exact Hsat].
  intros k v rk Hin Hr. each_entry Hin.
  vm_compute in Hr. injection Hr as <-. split.
  - eapply (sample_key_satisfied _ _ (mkSemVer 1 9 4));
      vm_compute; reflexivity.
  - apply (sample_in_bounds _ (mkSemVer 1 9 4));
      [vm_compute; reflexivity|cbn; lia..].
Defined.

Lemma sample_nonempty (o : object) k r : o !! k = Some r → o ≠ ∅.
Proof. intros Hk ->. by rewrite lookup_empty in Hk. Qed.

(** The theorem X3 at [1.9.4] and [{deno: '1.9.4', node: '18'}]. *)
Lemma X3_witness :
  agree_on (Deno_version host_194).*1
    (requirement_of (Str "1.9.4") (state_with deno_and_node))
    (requirement_of (Obj 1%positive) (state_with deno_and_node))
  ∧ observable
      (Simple.ensureVersion host_194 (Str "1.9.4") true
         (state_with deno_and_node))
    = observable
        (Simple.ensureVersion host_194 (Obj 1%positive) true
           (state_with deno_and_node)).
Proof.
  assert (agree_on (Deno_version host_194).*1
            (requirement_of (Str "1.9.4") (state_with deno_and_node))
            (requirement_of (Obj 1%positive) (state_with deno_and_node)))
    as Hag.
  { intros k Hk. cbn in Hk.
    repeat (apply elem_of_cons in Hk as [->|Hk]);
      [vm_compute; reflexivity..|by apply elem_of_nil in Hk]. }
  split; [exact Hag|].
  apply (X3_simple_reads_keys_of_Deno_version host_194 (Str "1.9.4")
           (Obj 1%positive) true (state_with deno_and_node));
    [| |exact Hag].
  - apply (sample_nonempty _ "deno" "1.9.4"). vm_compute. reflexivity.
  - apply (sample_nonempty _ "deno" "1.9.4"). vm_compute. reflexivity.
Defined.

(** The theorem X4 at [>=1.8.0] and
    [{deno: '>=1.8.0', typescript: '3.2.1'}]. *)
Lemma X4_witness :
  agree_on (catalog_keys host_194)
    (requirement_of (Str ">=1.8.0") (state_with deno_and_typescript))
    (requirement_of (Obj 1%positive) (state_with deno_and_typescript))
  ∧ observable
      (Catalog.ensureVersion host_194 (Str ">=1.8.0") true None
         (state_with deno_and_typescript))
    = observable
        (Catalog.ensureVersion host_194 (Obj 1%positive) true None
           (state_with deno_and_typescript)).
Proof.
  assert (agree_on (catalog_keys host_194)
            (requirement_of (Str ">=1.8.0") (state_with deno_and_typescript))
            (requirement_of (Obj 1%positive)
               (state_with deno_and_typescript))) as Hag.
  { intros k Hk. vm_compute in Hk.
    repeat (apply elem_of_cons in Hk as [->|Hk]);
      [vm_compute; reflexivity..|by apply elem_of_nil in Hk]. }
  split; [exact Hag|].
  apply (X4_catalog_ignores_typescript_and_v8 host_194 (Str ">=1.8.0")
           (Obj 1%positive) true None (state_with deno_and_typescript));
    [| |exact Hag].
  - apply (sample_nonempty _ "deno" ">=1.8.0"). vm_compute. reflexivity.
  - apply (sample_nonempty _ "deno" ">=1.8.0"). vm_compute. reflexivity.
Defined.

(** The theorem X6 at the requirement [1.9.3] of the running [1.9.4]. *)
Lemma X6_witness :
  semver_satisfies (first_three "1.9.4") (first_three "1.9.3") = LibOk false
  ∧ (Catalog.ensureVersion host_194 (Str "1.9.3") true None empty_state).1
    = Throw (Err RangeError
               (Catalog.mismatch_message None "deno" (first_three "1.9.4")
                  (Some "1.9.3"))).
Proof.
  assert (semver_satisfies (first_three "1.9.4") (first_three "1.9.3")
          = LibOk false) as Hsat by (vm_compute; reflexivity).
  split; [exact Hsat|].
  apply (X6_catalog_deno_mismatch host_194 (Str "1.9.3") true None
           empty_state "1.9.4" "1.9.3");
    [exact host_194_deno_keys|compute_done|by left|reflexivity|exact Hsat].
Defined.


(** The theorem X8 at the requirement [>=1.8.0] of the running [1.9.4],
    with the release [1.26.0] in the catalog. *)
Lemma X8_witness :
  semver_maxSatisfying (catalog_strings host_194) (first_three ">=1.8.0")
  = LibOk (Some "1.26.0")
  ∧ observable
      (Catalog.ensureVersion host_194 (Str ">=1.8.0") true None empty_state)
    = (Ok tt,
       console empty_state
       ++ catalog_advisory None true (first_three "1.9.4")
            (first_three ">=1.8.0") "1.26.0" (mkSemVer 1 26 0)
            (mkSemVer 1 9 4)).
Proof.
  assert (semver_maxSatisfying (catalog_strings host_194)
            (first_three ">=1.8.0") = LibOk (Some "1.26.0")) as Hmax
    by (vm_compute; reflexivity).
  split; [exact Hmax|].
  apply (X8_catalog_deno_satisfied host_194 (Str ">=1.8.0") true None
           empty_state "1.9.4" ">=1.8.0" "1.26.0");
    [exact host_194_deno_keys|compute_done|by left|reflexivity
    |vm_compute; reflexivity|exact Hmax|vm_compute; reflexivity
    |vm_compute; reflexivity].
Defined.

(** The theorem X9 at the requirement [{typescript: '3.2.1'}]. *)
Lemma X9_witness :
  requirement_of (Obj 1%positive) (state_with {[ "typescript" := "3.2.1" ]})
    !! "deno" = None
  ∧ observable
      (Catalog.ensureVersion host_194 (Obj 1%positive) true None
         (state_with {[ "typescript" := "3.2.1" ]}))
    = (Ok tt, console (state_with {[ "typescript" := "3.2.1" ]})).
Proof.
  split; [reflexivity|].
  apply (X9_catalog_without_deno host_194 (Obj 1%positive) true None
           (state_with {[ "typescript" := "3.2.1" ]}));
    [exact host_194_deno_keys| |reflexivity].
  apply (sample_nonempty _ "typescript" "3.2.1"). vm_compute. reflexivity.
Defined.


(** The theorem X11 at the running version [1.9.4] and the range
    [>=1.8.0], with the reference library. *)
Lemma X11_witness :
  semver_parse "1.9.4" = LibOk (mkSemVer 1 9 4)
  ∧ ∃ minors patches,
      Simple.maxMinor "1.9.4" ">=1.8.0" empty_state
      = lib (lib_map Boolean (semver_maxSatisfying minors ">=1.8.0"))
          empty_state
      ∧ Simple.maxPatch "1.9.4" ">=1.8.0" empty_state
        = lib (lib_map Boolean (semver_maxSatisfying patches ">=1.8.0"))
            empty_state
      ∧ (∀ v, v ∈ minors ↔
              ∃ m, 9 < m ≤ 100 ∧ v = version_string 1 m 0)
      ∧ (∀ v, v ∈ patches ↔
              ∃ p, 4 < p ≤ 500 ∧ v = version_string 1 9 p).
Proof.
  assert (semver_parse "1.9.4" = LibOk (mkSemVer 1 9 4)) as Hparse
    by reflexivity.
  split; [exact Hparse|].
  exact (X11_candidates_above_running_version "1.9.4" ">=1.8.0"
           (mkSemVer 1 9 4) empty_state Hparse
           ltac:(cbn; lia) ltac:(cbn; lia)).
Defined.

(** The theorem X12 at the version [1.9.4]. *)
Lemma X12_witness :
  (length (split "." "1.9.4") ≤ 3)%nat ∧ first_three "1.9.4" = "1.9.4".
Proof.
  assert (length (split "." "1.9.4") ≤ 3)%nat as Hlen by (cbn; lia).
  split; [exact Hlen|].
  exact (proj2 (X12_first_three_prefix "1.9.4") Hlen).
Defined.

(** The theorem X14 at notes with the versions [1.9.4] and [1.9.3]. *)
Lemma X14_witness :
  free "#" "Releases " = true
  ∧ Forall (λ e, safe_version e.1 ∧ plain e.2) two_releases
  ∧ Releases.denoVersions ("Releases " +:+ notes two_releases)
    = [mkSemVer 1 9 4; mkSemVer 1 9 3].
Proof.
  assert (Forall (λ e, safe_version e.1 ∧ plain e.2) two_releases) as Hall.
  { repeat constructor; cbn; lia. }
  split; [reflexivity|]. split; [exact Hall|].
  exact (X14_catalog_of_notes "Releases " two_releases eq_refl Hall).
Defined.

(** The theorem X15 at the text [### 1.9.4]. *)
Lemma X15_witness :
  mkSemVer 1 9 4 ∈ Releases.denoVersions "### 1.9.4"
  ∧ (∃ pre p1 p2 p3 post,
       "### 1.9.4"
       = pre +:+ "### " +:+ p1 +:+ "." +:+ p2 +:+ "." +:+ p3 +:+ post
       ∧ numeral_of p1 1 ∧ numeral_of p2 9 ∧ numeral_of p3 4)
  ∧ safe_version (mkSemVer 1 9 4).
Proof.
  assert (mkSemVer 1 9 4 ∈ Releases.denoVersions "### 1.9.4") as Hin
    by (vm_compute; by left).
  split; [exact Hin|].
  exact (X15_catalog_entries_are_headings "### 1.9.4" (mkSemVer 1 9 4) Hin
           ltac:(cbn; lia) ltac:(cbn; lia) ltac:(cbn; lia)).
Defined.
